(** * Heart-disease forward-chaining rule engine (heartdesease.py)

    A shallow embedding of the rule representation, the condition checker,
    the engine ([HeartDiseaseEngine.__init__] and [HeartDiseaseEngine.run])
    and the DOT exporter [build_graph_dot], followed by the properties of
    the engine that the specification states. *)

From Stdlib Require Import ZArith String Ascii DecimalString DecimalNat.
From stdpp Require Import base option list gmap strings sorting.

Local Open Scope string_scope.
Local Open Scope list_scope.
Local Open Scope nat_scope.

(** ** Python values and exceptions *)

(** Fact values are integers or text (the knowledge base uses both).
    Python integers are unbounded, hence [Z]; text is a string of bytes
    (its UTF-8 encoding, whose lexicographic order is that of the code
    points). *)
Inductive value :=
  | VInt (z : Z)
  | VStr (s : string).

#[global] Instance value_eq_dec : EqDecision value.
Proof. solve_decision. Defined.

(** The only exception the modelled code can raise on such values. *)
Inductive exn := TypeError.

(** The result of running a piece of Python code. *)
Inductive outcome (A : Type) :=
  | Returned (a : A)
  | Raised (e : exn).
Arguments Returned {A} a.
Arguments Raised {A} e.

#[global] Instance exn_eq_dec : EqDecision exn.
Proof. solve_decision. Defined.
#[global] Instance outcome_eq_dec {A : Type} `{EqDecision A} : EqDecision (outcome A).
Proof. solve_decision. Defined.

(** Sequencing: an exception aborts what follows. *)
Definition bind {A B : Type} (m : outcome A) (k : A → outcome B) : outcome B :=
  match m with
  | Returned a => k a
  | Raised e => Raised e
  end.

Notation "'do' x <- m 'in' k" := (bind m (λ x, k))
  (at level 10, x name, m at level 100, k at level 200).

(** [a == b]: values of different kinds are unequal, never an error. *)
Definition py_eq (a b : value) : bool :=
  match a, b with
  | VInt x, VInt y => (x =? y)%Z
  | VStr s, VStr t => String.eqb s t
  | _, _ => false
  end.

(** [a != b]. *)
Definition py_ne (a b : value) : bool := negb (py_eq a b).

(** Ordering comparisons are defined between two integers and between two
    strings (lexicographic); between an integer and a string Python raises
    TypeError. *)
Definition py_cmp (a b : value) : outcome comparison :=
  match a, b with
  | VInt x, VInt y => Returned (x ?= y)%Z
  | VStr s, VStr t => Returned (String.compare s t)
  | _, _ => Raised TypeError
  end.

Definition py_ge (a b : value) : outcome bool :=
  do c <- py_cmp a b in Returned (match c with Lt => false | _ => true end).
Definition py_le (a b : value) : outcome bool :=
  do c <- py_cmp a b in Returned (match c with Gt => false | _ => true end).
Definition py_gt (a b : value) : outcome bool :=
  do c <- py_cmp a b in Returned (match c with Gt => true | _ => false end).
Definition py_lt (a b : value) : outcome bool :=
  do c <- py_cmp a b in Returned (match c with Lt => true | _ => false end).

(** ** Rule representation *)

(** A condition is the tuple (fact_key, operator, value). *)
Definition condition : Type := string * string * value.

Record InferenceRule := {
  identifier : string;
  conditions : list condition;
  conclusion : string * value;
  priority : Z
}.

(** ** Condition checker *)

(** The dictionary [ops] of [check_condition]; [ops.get(operator)]. *)
Definition ops (operator : string) : option (value → value → outcome bool) :=
  if String.eqb operator "==" then Some (λ a b, Returned (py_eq a b))
  else if String.eqb operator "!=" then Some (λ a b, Returned (py_ne a b))
  else if String.eqb operator ">=" then Some py_ge
  else if String.eqb operator "<=" then Some py_le
  else if String.eqb operator ">" then Some py_gt
  else if String.eqb operator "<" then Some py_lt
  else None.

Definition check_condition (cond : condition) (facts : gmap string value)
  : outcome bool :=
  let '(key, operator, value) := cond in
  match facts !! key with
  | None => Returned false
  | Some current_value =>
      match ops operator with
      | None => Returned false
      | Some fn => fn current_value value
      end
  end.

(** [all(check_condition(cond, facts) for cond in rule.conditions)]:
    the generator is consumed left to right and [all] stops at the first
    false; an exception raised by a check propagates. *)
Fixpoint all_conditions (conds : list condition) (facts : gmap string value)
  : outcome bool :=
  match conds with
  | [] => Returned true
  | cond :: conds' =>
      do b <- check_condition cond facts in
      if b then all_conditions conds' facts else Returned false
  end.

(** ** Forward chaining engine *)

(** Python's built-in [sorted(rules, key=lambda r: r.priority, reverse=True)]:
    a stable sort into descending key order that returns a new list.  It is
    embedded as a stable insertion sort: a rule is inserted after the rules
    of strictly higher priority and before everything else. *)
Fixpoint insert_by_priority (r : InferenceRule) (l : list InferenceRule)
  : list InferenceRule :=
  match l with
  | [] => [r]
  | r' :: l' =>
      if (priority r <? priority r')%Z then r' :: insert_by_priority r l'
      else r :: r' :: l'
  end.

Fixpoint sorted_by_priority_desc (rs : list InferenceRule) : list InferenceRule :=
  match rs with
  | [] => []
  | r :: rs' => insert_by_priority r (sorted_by_priority_desc rs')
  end.

(** The local variables of [run] that the loops update. *)
Record state := {
  facts : gmap string value;
  triggered_rules : list string;
  new_fact_added : bool
}.

Module HeartDiseaseEngine.

(** The engine object: its only attribute is [self.rules]. *)
Record t := { rules : list InferenceRule }.

(** [__init__]. *)
Definition __init__ (rs : list InferenceRule) : t :=
  {| rules := sorted_by_priority_desc rs |}.

(** [facts.get(fact_key) != fact_value]: an absent key yields None, which
    differs from every value. *)
Definition differs (fs : gmap string value) (fact_key : string)
    (fact_value : value) : bool :=
  match fs !! fact_key with
  | None => true
  | Some current => py_ne current fact_value
  end.

(** The body of the [for rule in self.rules] loop. *)
Definition rule_body (rule : InferenceRule) (st : state) : outcome state :=
  if bool_decide (identifier rule ∈ triggered_rules st) then Returned st
  else
    do b <- all_conditions (conditions rule) (facts st) in
    if b then
      let '(fact_key, fact_value) := conclusion rule in
      if differs (facts st) fact_key fact_value then
        Returned {| facts := <[fact_key := fact_value]> (facts st);
                    triggered_rules := triggered_rules st ++ [identifier rule];
                    new_fact_added := true |}
      else Returned st
    else Returned st.

(** [for rule in self.rules: ...]. *)
Fixpoint for_rules (rs : list InferenceRule) (st : state) : outcome state :=
  match rs with
  | [] => Returned st
  | rule :: rs' => do st' <- rule_body rule st in for_rules rs' st'
  end.

(** One iteration of the [while] body: reset the flag, then the [for]. *)
Definition pass (rs : list InferenceRule) (st : state) : outcome state :=
  for_rules rs {| facts := facts st;
                  triggered_rules := triggered_rules st;
                  new_fact_added := false |}.

(** [while new_fact_added: ...].  [fuel] bounds the number of iterations
    the model is willing to execute ([None] when it is exhausted);
    [passes] counts the iterations executed so far. *)
Fixpoint while_loop (fuel : nat) (rs : list InferenceRule) (st : state)
    (passes : nat) : option (outcome state * nat) :=
  if new_fact_added st then
    match fuel with
    | O => None
    | S fuel' =>
        match pass rs st with
        | Raised e => Some (Raised e, S passes)
        | Returned st' => while_loop fuel' rs st' (S passes)
        end
    end
  else Some (Returned st, passes).

(** [run]: the result is the returned pair (or the exception raised)
    together with the number of iterations of the [while] loop. *)
Definition run (fuel : nat) (self : t) (initial_facts : gmap string value)
  : option (outcome (gmap string value * list string) * nat) :=
  let st0 := {| facts := initial_facts;
                triggered_rules := [];
                new_fact_added := true |} in
  match while_loop fuel (rules self) st0 0 with
  | None => None
  | Some (Returned st, n) => Some (Returned (facts st, triggered_rules st), n)
  | Some (Raised e, n) => Some (Raised e, n)
  end.

End HeartDiseaseEngine.

(** ** Heart disease knowledge base *)

Definition heart_disease_rules : list InferenceRule :=
  [ {| identifier := "S1: core symptoms => suspect";
       conditions := [("core_symptoms", "==", VInt 1)];
       conclusion := ("stage1", VInt 1); priority := 10 |};
    {| identifier := "S2: multiple symptoms >=3";
       conditions := [("symptom_count", ">=", VInt 3)];
       conclusion := ("stage1", VInt 1); priority := 9 |};
    {| identifier := "R1: high risk factors present";
       conditions := [("stage1", "==", VInt 1); ("risk_count", ">=", VInt 2);
                      ("strong_risk", "==", VInt 1)];
       conclusion := ("stage2", VInt 1); priority := 8 |};
    {| identifier := "L1: positive tests + duration";
       conditions := [("stage2", "==", VInt 1); ("duration", "==", VInt 1);
                      ("positive_lab_count", ">=", VInt 1)];
       conclusion := ("stage3", VInt 1); priority := 7 |};
    {| identifier := "C1: repeat positive + ruled out other";
       conditions := [("stage3", "==", VInt 1); ("repeat", "==", VInt 1);
                      ("ruled_out_other", "==", VInt 1)];
       conclusion := ("stage4", VInt 1); priority := 6 |};
    {| identifier := "T1: confirmed + no contraindication";
       conditions := [("stage4", "==", VInt 1); ("contra", "==", VInt 0)];
       conclusion := ("final", VStr "Confirmed Heart Disease. Start ACE inhibitors + lifestyle management.");
       priority := 5 |};
    {| identifier := "T2: confirmed + contraindication";
       conditions := [("stage4", "==", VInt 1); ("contra", "==", VInt 1)];
       conclusion := ("final", VStr "Confirmed Heart Disease. ACE inhibitors contraindicated, use alternative therapy.");
       priority := 5 |};
    {| identifier := "Plan-Stage3: likely but not confirmed";
       conditions := [("stage3", "==", VInt 1); ("stage4", "!=", VInt 1)];
       conclusion := ("final", VStr "Heart disease likely. Repeat tests and begin lifestyle modifications.");
       priority := 4 |};
    {| identifier := "Plan-Stage2: high risk but labs inconclusive";
       conditions := [("stage2", "==", VInt 1); ("stage3", "!=", VInt 1)];
       conclusion := ("final", VStr "High risk of heart disease. Order ECG, echocardiography, and labs.");
       priority := 3 |};
    {| identifier := "Plan-Stage1: symptoms only";
       conditions := [("stage1", "==", VInt 1); ("stage2", "!=", VInt 1)];
       conclusion := ("final", VStr "Symptoms suggest screening. Advise ECG and lifestyle evaluation.");
       priority := 2 |};
    {| identifier := "Plan-0: low suspicion";
       conditions := [("stage1", "!=", VInt 1)];
       conclusion := ("final", VStr "Low suspicion. Monitor and reassess if symptoms increase.");
       priority := 1 |} ].

Definition RULES : list InferenceRule := heart_disease_rules.

(** The facts the form builds for a patient with every box ticked except
    the contraindication. *)
Definition patient_facts : gmap string value :=
  {[ "core_symptoms" := VInt 1; "symptom_count" := VInt 2;
     "risk_count" := VInt 2; "strong_risk" := VInt 1; "duration" := VInt 1;
     "positive_lab_count" := VInt 1; "repeat" := VInt 1;
     "ruled_out_other" := VInt 1; "contra" := VInt 0 ]}.

(** ** The engine over a store of Python objects

    [run] receives a reference to the caller's dictionary and copies it
    with [dict(initial_facts)]; [facts[fact_key] = fact_value] then updates
    the object that [facts] refers to.  The same code is embedded here over
    an explicit store, so that the effect on the caller's objects can be
    stated. *)
Module Heap.

Inductive object :=
  | Dict (d : gmap string value)
  | RuleList (l : list InferenceRule).

(** Allocation of a new object at an unused address. *)
Definition alloc (h : gmap nat object) (o : object) : gmap nat object * nat :=
  let l := fresh (dom h) in (<[l := o]> h, l).

(** The dictionary an address refers to. *)
Definition read_dict (h : gmap nat object) (l : nat) : gmap string value :=
  match h !! l with
  | Some (Dict d) => d
  | _ => ∅
  end.

(** [__init__]: [sorted] builds a new list object, [self.rules] refers
    to it. *)
Definition __init__ (h : gmap nat object) (rules : nat)
  : option (gmap nat object * nat) :=
  match h !! rules with
  | Some (RuleList rs) => Some (alloc h (RuleList (sorted_by_priority_desc rs)))
  | _ => None
  end.

(** The local variables of [run]; [facts] is a reference. *)
Record frame := {
  facts : nat;
  triggered_rules : list string;
  new_fact_added : bool
}.

Definition rule_body (rule : InferenceRule) (h : gmap nat object) (fr : frame)
  : gmap nat object * outcome frame :=
  if bool_decide (identifier rule ∈ triggered_rules fr) then (h, Returned fr)
  else
    match all_conditions (conditions rule) (read_dict h (facts fr)) with
    | Raised e => (h, Raised e)
    | Returned false => (h, Returned fr)
    | Returned true =>
        let '(fact_key, fact_value) := conclusion rule in
        if HeartDiseaseEngine.differs (read_dict h (facts fr)) fact_key fact_value
        then
          (<[facts fr := Dict (<[fact_key := fact_value]> (read_dict h (facts fr)))]> h,
           Returned {| facts := facts fr;
                       triggered_rules := triggered_rules fr ++ [identifier rule];
                       new_fact_added := true |})
        else (h, Returned fr)
    end.

Fixpoint for_rules (rs : list InferenceRule) (h : gmap nat object) (fr : frame)
  : gmap nat object * outcome frame :=
  match rs with
  | [] => (h, Returned fr)
  | rule :: rs' =>
      match rule_body rule h fr with
      | (h', Returned fr') => for_rules rs' h' fr'
      | (h', Raised e) => (h', Raised e)
      end
  end.

Fixpoint while_loop (fuel : nat) (rs : list InferenceRule)
    (h : gmap nat object) (fr : frame) (passes : nat)
  : option (gmap nat object * outcome frame * nat) :=
  if new_fact_added fr then
    match fuel with
    | O => None
    | S fuel' =>
        match for_rules rs h {| facts := facts fr;
                                triggered_rules := triggered_rules fr;
                                new_fact_added := false |} with
        | (h', Raised e) => Some (h', Raised e, S passes)
        | (h', Returned fr') => while_loop fuel' rs h' fr' (S passes)
        end
    end
  else Some (h, Returned fr, passes).

(** [run]: [self] is the engine's rule list, [initial_facts] the address
    of the caller's dictionary; the pair returned holds the address of
    the working dictionary. *)
Definition run (fuel : nat) (self : HeartDiseaseEngine.t)
    (h : gmap nat object) (initial_facts : nat)
  : option (gmap nat object * outcome (nat * list string) * nat) :=
  match h !! initial_facts with
  | Some (Dict d) =>
      let '(h0, l) := alloc h (Dict d) in
      let fr0 := {| facts := l; triggered_rules := []; new_fact_added := true |} in
      match while_loop fuel (HeartDiseaseEngine.rules self) h0 fr0 0 with
      | None => None
      | Some (h', Returned fr, n) =>
          Some (h', Returned (facts fr, triggered_rules fr), n)
      | Some (h', Raised e, n) => Some (h', Raised e, n)
      end
  | _ => None
  end.

End Heap.

(** ** Dependency graph exporter *)

(** The double quote and the newline character. *)
Definition dq : string := String "034"%char EmptyString.

Definition quoted (s : string) : string := dq +:+ s +:+ dq.

(** [s.replace(dq, backslash dq)]. *)
Fixpoint escape_quotes (s : string) : string :=
  match s with
  | EmptyString => EmptyString
  | String c s' =>
      if Ascii.eqb c "034" then String "092" (String "034" (escape_quotes s'))
      else String c (escape_quotes s')
  end.

(** Decimal rendering of the index in the f-string of the rule name. *)
Definition str_of_nat (n : nat) : string :=
  NilEmpty.string_of_uint (Nat.to_uint n).

Definition rule_name (i : nat) : string := "rule_" +:+ str_of_nat i.

(** The three kinds of lines the exporter appends. *)
Definition fact_node_line (fk : string) : string :=
  quoted fk +:+ " [shape=oval, fillcolor=" +:+ quoted "#ffffe0" +:+ "];".

Definition rule_node_line (rn label color : string) : string :=
  quoted rn +:+ " [label=" +:+ quoted label +:+ ", shape=box, style="
    +:+ quoted "filled" +:+ ", fillcolor=" +:+ quoted color +:+ "];".

Definition edge_line (src dst : string) : string :=
  quoted src +:+ " -> " +:+ quoted dst +:+ ";".

Definition graph_header : list string :=
  ["digraph G {"; "rankdir=LR;";
   "node [shape=box, style=" +:+ quoted "rounded,filled" +:+ ", fillcolor="
     +:+ quoted "#ffffff" +:+ "];"].

(** The set built by the first loop of [build_graph_dot]. *)
Definition collect_fact_keys (rules : list InferenceRule) : gset string :=
  foldl (λ fact_keys r,
           foldl (λ fks (c : condition), fks ∪ {[ c.1.1 ]}) fact_keys (conditions r)
             ∪ {[ (conclusion r).1 ]})
        ∅ rules.

(** [sorted(fact_keys)]: the elements of the set in ascending order,
    strings being ordered lexicographically on their characters. *)
Definition sorted_keys (fact_keys : gset string) : list string :=
  merge_sort String.le (elements fact_keys).

(** The loop over [enumerate(rules)], from index [i] on. *)
Fixpoint rules_loop (i : nat) (rules : list InferenceRule)
    (fired_rules : list string) (lines : list string) : list string :=
  match rules with
  | [] => lines
  | r :: rules' =>
      let rn := rule_name i in
      let label := escape_quotes (identifier r) in
      let color := if bool_decide (identifier r ∈ fired_rules)
                   then "#b3e6b3" else "#e6f0ff" in
      let lines := lines ++ [rule_node_line rn label color] in
      let lines := foldl (λ ls (cond : condition), ls ++ [edge_line cond.1.1 rn])
                         lines (conditions r) in
      let lines := lines ++ [edge_line rn (conclusion r).1] in
      rules_loop (S i) rules' fired_rules lines
  end.

(** The list [lines] when it is joined. *)
Definition build_graph_lines (rules : list InferenceRule)
    (fired_rules : option (list string)) : list string :=
  let fired_rules := default [] fired_rules in
  let lines := graph_header in
  let fact_keys := collect_fact_keys rules in
  let lines := foldl (λ ls fk, ls ++ [fact_node_line fk]) lines
                     (sorted_keys fact_keys) in
  let lines := rules_loop 0 rules fired_rules lines in
  lines ++ ["}"].


(** ** Scenarios of the specification *)

Definition rule_R1 : InferenceRule :=
  {| identifier := "R1"; conditions := [("a", "==", VInt 1)];
     conclusion := ("b", VInt 1); priority := 2 |}.
Definition rule_R2 : InferenceRule :=
  {| identifier := "R2"; conditions := [("b", "==", VInt 1)];
     conclusion := ("c", VInt 1); priority := 1 |}.

(** Two rules on the same conclusion key: the first overwrites the value
    that the second concludes. *)
Definition rule_RA : InferenceRule :=
  {| identifier := "RA"; conditions := [("a", "==", VInt 1)];
     conclusion := ("k", VInt 2); priority := 2 |}.
Definition rule_RB : InferenceRule :=
  {| identifier := "RB"; conditions := [("a", "==", VInt 1)];
     conclusion := ("k", VInt 1); priority := 1 |}.

(** Four rules: Q1 and Q2 have no key in common, Q0 overwrites the fact
    that Q1 tests and Q3 restores it. *)
Definition rule_Q0 : InferenceRule :=
  {| identifier := "Q0"; conditions := [("a", "==", VInt 1)];
     conclusion := ("x", VInt 0); priority := 3 |}.
Definition rule_Q1 : InferenceRule :=
  {| identifier := "Q1"; conditions := [("x", "==", VInt 1)];
     conclusion := ("y", VInt 1); priority := 2 |}.
Definition rule_Q2 : InferenceRule :=
  {| identifier := "Q2"; conditions := [("z", "==", VInt 1)];
     conclusion := ("w", VInt 1); priority := 1 |}.
Definition rule_Q3 : InferenceRule :=
  {| identifier := "Q3"; conditions := [("w", "==", VInt 1)];
     conclusion := ("x", VInt 1); priority := 0 |}.

(** Two rules that carry the same identifier. *)
Definition rule_D1 : InferenceRule :=
  {| identifier := "D"; conditions := [("a", "==", VInt 1)];
     conclusion := ("k", VInt 1); priority := 2 |}.
Definition rule_D2 : InferenceRule :=
  {| identifier := "D"; conditions := [("a", "==", VInt 1)];
     conclusion := ("j", VInt 2); priority := 1 |}.


(** ** Notions used to state the properties *)

Import HeartDiseaseEngine.

(** Values of the same kind: the pairs that Python can order. *)
Definition same_kind (a b : value) : Prop :=
  match a, b with
  | VInt _, VInt _ | VStr _, VStr _ => True
  | _, _ => False
  end.

(** What one rule does to the state: nothing, or it fires. *)
Inductive fires (rule : InferenceRule) (st : state) : state → Prop :=
  | fires_intro :
      identifier rule ∉ triggered_rules st →
      all_conditions (conditions rule) (facts st) = Returned true →
      differs (facts st) (conclusion rule).1 (conclusion rule).2 = true →
      fires rule st
        {| facts := <[(conclusion rule).1 := (conclusion rule).2]> (facts st);
           triggered_rules := triggered_rules st ++ [identifier rule];
           new_fact_added := true |}.

(** The firing record holds identifiers of the rule set, without repeats. *)
Definition record_ok (rs : list InferenceRule) (st : state) : Prop :=
  NoDup (triggered_rules st) ∧ triggered_rules st ⊆ identifier <$> rs.

(** [facts[fact_key] = fact_value] for the conclusion of a rule. *)
Definition apply_conclusion (fs : gmap string value) (r : InferenceRule)
  : gmap string value :=
  <[(conclusion r).1 := (conclusion r).2]> fs.

(** The local variables of the run over the store, with the dictionary
    that [facts] refers to in place of the reference. *)
Definition frame_state (d : gmap string value) (fr : Heap.frame) : state :=
  {| facts := d;
     triggered_rules := Heap.triggered_rules fr;
     new_fact_added := Heap.new_fact_added fr |}.

(** A step over the store from [h] to [h'] that touches only the
    dictionary at [l] and agrees with the outcome [r'] of the same step
    over the dictionary as a value. *)
Definition refines (l : nat) (h h' : gmap nat Heap.object)
    (r : outcome Heap.frame) (r' : outcome state) : Prop :=
  (∀ l0, l0 ≠ l → h' !! l0 = h !! l0)
  ∧ match r, r' with
    | Returned fr', Returned st' =>
        Heap.facts fr' = l
        ∧ h' !! l = Some (Heap.Dict (facts st'))
        ∧ frame_state (facts st') fr' = st'
    | Raised e, Raised e' => e = e' ∧ is_Some (h' !! l)
    | _, _ => False
    end.

(** The fact keys of a rule: its conclusion key and its condition keys. *)
Definition rule_keys (r : InferenceRule) : list string :=
  (conclusion r).1 :: ((λ c : condition, c.1.1) <$> conditions r).

(** A rule is eligible on facts [fs]: its conditions are all true and its
    conclusion differs from what [fs] holds. *)
Definition eligible (r : InferenceRule) (fs : gmap string value) : Prop :=
  all_conditions (conditions r) fs = Returned true
  ∧ differs fs (conclusion r).1 (conclusion r).2 = true.

(** [x] occurs in [l] at a position before one of [y]. *)
Definition precedes (x y : string) (l : list string) : Prop :=
  ∃ i j, l !! i = Some x ∧ l !! j = Some y ∧ i < j.

(** In a pass over the rule list [rs], the rule [r] is evaluated before
    the rule [r']: it stands at an earlier position. *)
Definition evaluated_before (rs : list InferenceRule) (r r' : InferenceRule) : Prop :=
  ∃ i j, rs !! i = Some r ∧ rs !! j = Some r' ∧ i < j.


(** ** Reading the exported text back *)











(** ** The diagnosis of the Streamlit application

    The computation of [run_streamlit_app] between the widgets and the
    display: the values read from the form, the facts built from them when
    the form is submitted, and the text shown as the diagnosis. *)
Module App.

(** The values of the widgets of the form. *)
Record form := {
  selected_symptoms : list string;
  risk_count : Z;
  strong_risk : bool;
  duration : bool;
  positive_lab_count : Z;
  repeat : bool;
  ruled_out_other : bool;
  contra : bool
}.

(** [int(b)] for a boolean [b]. *)
Definition int_of_bool (b : bool) : Z := if b then 1%Z else 0%Z.

(** 1 when both chest pain and shortness of breath are selected. *)
Definition core_symptoms (f : form) : Z :=
  if bool_decide ("Chest pain" ∈ selected_symptoms f
                  ∧ "Shortness of breath" ∈ selected_symptoms f)
  then 1%Z else 0%Z.

(** [len(selected_symptoms)]. *)
Definition symptom_count (f : form) : Z := Z.of_nat (length (selected_symptoms f)).

(** The dictionary [facts] built on submission. *)
Definition facts (f : form) : gmap string value :=
  {[ "core_symptoms" := VInt (core_symptoms f);
     "symptom_count" := VInt (symptom_count f);
     "risk_count" := VInt (risk_count f);
     "strong_risk" := VInt (int_of_bool (strong_risk f));
     "duration" := VInt (int_of_bool (duration f));
     "positive_lab_count" := VInt (positive_lab_count f);
     "repeat" := VInt (int_of_bool (repeat f));
     "ruled_out_other" := VInt (int_of_bool (ruled_out_other f));
     "contra" := VInt (int_of_bool (contra f)) ]}.

(** The engine is run on the precomputed rules; the diagnosis displayed is
    [final_facts.get(final, default)], next to the rules fired. *)
Definition diagnosis (fuel : nat) (f : form)
  : option (outcome (value * list string) * nat) :=
  match HeartDiseaseEngine.run fuel (HeartDiseaseEngine.__init__ RULES) (facts f) with
  | None => None
  | Some (Returned (final_facts, fired_rules), n) =>
      Some (Returned (default (VStr "No diagnosis could be made.")
                              (final_facts !! "final"), fired_rules), n)
  | Some (Raised e, n) => Some (Raised e, n)
  end.

End App.

(** The kind of a value: integer or text. *)
Definition is_int (v : value) : bool :=
  match v with VInt _ => true | VStr _ => false end.

(** A fact store in which every key holds a value of the kind that [ty]
    assigns to the key. *)
Definition well_typed (ty : string → bool) (fs : gmap string value) : Prop :=
  ∀ k v, fs !! k = Some v → is_int v = ty k.

(** A rule that concludes a value of the kind of its conclusion key and
    orders the value of a key only against values of the kind of the key. *)
Definition rule_typed (ty : string → bool) (r : InferenceRule) : Prop :=
  is_int (conclusion r).2 = ty (conclusion r).1
  ∧ ∀ c : condition, c ∈ conditions r →
      c.1.2 ∈ [">="; "<="; ">"; "<"] → is_int c.2 = ty c.1.1.

(** A rule at rest on the facts [fs]: its conditions evaluate to false, or
    they hold and [fs] already has its conclusion. *)
Definition at_rest (r : InferenceRule) (fs : gmap string value) : Prop :=
  all_conditions (conditions r) fs = Returned false
  ∨ (all_conditions (conditions r) fs = Returned true
     ∧ fs !! (conclusion r).1 = Some (conclusion r).2).

(** Two states of the engine on two initial fact stores [fs] and [fs']
    that differ on the keys [K] only: same record and flag, same facts off
    [K], and on [K] the facts each run started with. *)
Definition sim (K : list string) (fs fs' : gmap string value)
    (st st' : state) : Prop :=
  triggered_rules st = triggered_rules st'
  ∧ new_fact_added st = new_fact_added st'
  ∧ (∀ k, k ∉ K → facts st !! k = facts st' !! k)
  ∧ (∀ k, k ∈ K → facts st !! k = fs !! k ∧ facts st' !! k = fs' !! k).

(** The same outcome of two runs up to the facts on the keys [K]. *)
Definition same_outcome (K : list string)
    (r r' : option (outcome (gmap string value * list string) * nat)) : Prop :=
  match r, r' with
  | None, None => True
  | Some (Returned (final, fired), n), Some (Returned (final', fired'), n') =>
      fired = fired' ∧ n = n' ∧ ∀ k, k ∉ K → final !! k = final' !! k
  | Some (Raised e, n), Some (Raised e', n') => e = e' ∧ n = n'
  | _, _ => False
  end.

(** The criteria under which the knowledge base reaches stage 4 on the
    facts of a form. *)
Definition confirmed (f : App.form) : bool :=
  ((App.core_symptoms f =? 1)%Z || (3 <=? App.symptom_count f)%Z)
  && (2 <=? App.risk_count f)%Z && App.strong_risk f
  && App.duration f && (1 <=? App.positive_lab_count f)%Z
  && App.repeat f && App.ruled_out_other f.

(** The facts of a form as a function of the nine integers stored. *)
Definition facts_of (core count risk strong dur lab rep ruled ct : Z)
  : gmap string value :=
  {[ "core_symptoms" := VInt core; "symptom_count" := VInt count;
     "risk_count" := VInt risk; "strong_risk" := VInt strong;
     "duration" := VInt dur; "positive_lab_count" := VInt lab;
     "repeat" := VInt rep; "ruled_out_other" := VInt ruled;
     "contra" := VInt ct ]}.

(** The text that the application displays for a form. *)
Definition expected_diagnosis (f : App.form) : value :=
  if confirmed f then
    if App.contra f
    then VStr "Confirmed Heart Disease. ACE inhibitors contraindicated, use alternative therapy."
    else VStr "Confirmed Heart Disease. Start ACE inhibitors + lifestyle management."
  else VStr "No diagnosis could be made.".

(** A boolean test over both booleans. *)
Definition forall_bool (P : bool → bool) : bool := P true && P false.

(** The check of one combination of the nine tests that the knowledge base
    makes on the facts of a form: the run returns, the text displayed is
    the expected one, and no rule of priority 4 or less has fired. *)
Definition diagnosis_check (cb bs br sr d bp rp ro ct : bool) : bool :=
  match run 12 (__init__ RULES)
          (facts_of (if cb then 1 else 0) (if bs then 3 else 0)
             (if br then 2 else 0) (App.int_of_bool sr) (App.int_of_bool d)
             (if bp then 1 else 0) (App.int_of_bool rp) (App.int_of_bool ro)
             (App.int_of_bool ct)) with
  | Some (Returned (final, fired), n) =>
      bool_decide
        (default (VStr "No diagnosis could be made.") (final !! "final")
         = if (cb || bs) && br && sr && d && bp && rp && ro then
             if ct
             then VStr "Confirmed Heart Disease. ACE inhibitors contraindicated, use alternative therapy."
             else VStr "Confirmed Heart Disease. Start ACE inhibitors + lifestyle management."
           else VStr "No diagnosis could be made.")
      && forallb (λ r, (4 <? priority r)%Z || bool_decide (identifier r ∉ fired)) RULES
  | _ => false
  end.

(** * Properties *)

Example scenario_A :
  HeartDiseaseEngine.run 5 (HeartDiseaseEngine.__init__ [rule_R2; rule_R1])
    {["a" := VInt 1]}
  = Some (Returned (<["c" := VInt 1]> (<["b" := VInt 1]> {["a" := VInt 1]}),
                    ["R1"; "R2"]), 2).
Proof. vm_compute. reflexivity. Qed.

Example patient_run :
  ∃ final,
    HeartDiseaseEngine.run 12 (HeartDiseaseEngine.__init__ RULES) patient_facts
      = Some (Returned (final,
                ["S1: core symptoms => suspect"; "R1: high risk factors present";
                 "L1: positive tests + duration";
                 "C1: repeat positive + ruled out other";
                 "T1: confirmed + no contraindication"]), 2)
    ∧ final !! "final"
      = Some (VStr "Confirmed Heart Disease. Start ACE inhibitors + lifestyle management.").
Proof.
  assert (match HeartDiseaseEngine.run 12 (HeartDiseaseEngine.__init__ RULES)
                  patient_facts with
          | Some (Returned (final, fired), n) =>
              fired = ["S1: core symptoms => suspect"; "R1: high risk factors present";
                       "L1: positive tests + duration";
                       "C1: repeat positive + ruled out other";
                       "T1: confirmed + no contraindication"]
              ∧ n = 2
              ∧ final !! "final"
                = Some (VStr "Confirmed Heart Disease. Start ACE inhibitors + lifestyle management.")
          | _ => False
          end) as H by (vm_compute; repeat split).
  destruct (HeartDiseaseEngine.run 12 (HeartDiseaseEngine.__init__ RULES) patient_facts)
    as [[[[final fired]|e] n]|]; [|destruct H..].
  destruct H as (-> & -> & H). exists final. split; [reflexivity|exact H].
Qed.

Example scenario_graph :
  build_graph_lines [rule_R1; rule_R2] None =
   graph_header ++ [fact_node_line "a"; fact_node_line "b"; fact_node_line "c";
     rule_node_line "rule_0" "R1" "#e6f0ff"; edge_line "a" "rule_0"; edge_line "rule_0" "b";
     rule_node_line "rule_1" "R2" "#e6f0ff"; edge_line "b" "rule_1"; edge_line "rule_1" "c";
     "}"].
Proof. vm_compute. reflexivity. Qed.

(** ** Python equality and the condition checker *)

Lemma py_eq_true (a b : value) : py_eq a b = true ↔ a = b.
Proof.
  destruct a as [x|s], b as [y|t]; simpl; try (split; [discriminate | congruence]).
  - rewrite Z.eqb_eq. split; congruence.
  - rewrite String.eqb_eq. split; congruence.
Qed.

Lemma py_ne_false (a b : value) : py_ne a b = false ↔ a = b.
Proof. unfold py_ne. rewrite negb_false_iff. apply py_eq_true. Qed.

Lemma py_cmp_same_kind (a b : value) :
  same_kind a b → ∃ c, py_cmp a b = Returned c.
Proof. destruct a, b; simpl; intros []; eauto. Qed.

Lemma py_cmp_mixed (a b : value) : ¬ same_kind a b → py_cmp a b = Raised TypeError.
Proof. destruct a, b; simpl; intros H; try reflexivity; destruct H; exact I. Qed.

Lemma ops_supported (operator : string) :
  operator ∉ ["=="; "!="; ">="; "<="; ">"; "<"] → ops operator = None.
Proof.
  intros H. unfold ops.
  repeat match goal with
  | |- context [String.eqb operator ?s] =>
      destruct (String.eqb_spec operator s) as [->|_];
      [exfalso; apply H; set_solver|]
  end.
  reflexivity.
Qed.

Lemma ops_ordering (operator : string) :
  operator ∈ [">="; "<="; ">"; "<"] →
  ∃ f, ops operator = Some (λ a b, bind (py_cmp a b) (λ c, Returned (f c))).
Proof.
  rewrite !elem_of_cons, elem_of_nil.
  intros [->|[->|[->|[->|[]]]]]; eexists; reflexivity.
Qed.

(** C5, at the failing input: an ordering operator between the text stored
    under the key and an integer comparison value raises TypeError, so no
    boolean is returned. *)
Lemma check_condition_raises :
  ¬ ∃ b : bool,
      check_condition ("x", ">=", VInt 3) {["x" := VStr "abc"]} = Returned b.
Proof. intros [b Hb]. vm_compute in Hb. discriminate. Qed.

(** C5 (amended): [check_condition] returns false when the key is absent
    and returns false when the operator is not one of the six supported
    ones; it returns a boolean whenever the operator is == or != or the
    stored value and the comparison value are of the same kind (both
    integers or both text); for an ordering operator applied to an integer
    and a text value it raises TypeError. *)
Theorem check_condition_fails_open (key operator : string) (v : value)
    (fs : gmap string value) :
  (fs !! key = None → check_condition (key, operator, v) fs = Returned false)
  ∧ (operator ∉ ["=="; "!="; ">="; "<="; ">"; "<"] →
     check_condition (key, operator, v) fs = Returned false)
  ∧ ((∀ cur, fs !! key = Some cur →
        operator ∈ ["=="; "!="] ∨ same_kind cur v) →
     ∃ b : bool, check_condition (key, operator, v) fs = Returned b)
  ∧ (∀ cur, fs !! key = Some cur → operator ∈ [">="; "<="; ">"; "<"] →
       ¬ same_kind cur v →
       check_condition (key, operator, v) fs = Raised TypeError).
Proof.
  unfold check_condition. repeat split.
  - intros ->. reflexivity.
  - intros Hop. rewrite (ops_supported _ Hop). destruct (fs !! key); reflexivity.
  - intros Hk. destruct (fs !! key) as [cur|]; [|eauto].
    destruct (decide (operator ∈ ["=="; "!="; ">="; "<="; ">"; "<"])) as [Hin|Hout];
      [|rewrite (ops_supported _ Hout); eauto].
    destruct (Hk cur eq_refl) as [Heq|Hsk].
    + rewrite !elem_of_cons, elem_of_nil in Heq.
      destruct Heq as [->|[->|[]]]; simpl; eauto.
    + rewrite !elem_of_cons, elem_of_nil in Hin.
      destruct Hin as [->|[->|Hord]]; simpl; eauto.
      destruct (ops_ordering operator) as [f ->].
      { rewrite !elem_of_cons, elem_of_nil. exact Hord. }
      destruct (py_cmp_same_kind _ _ Hsk) as [c ->]. simpl. eauto.
  - intros cur -> Hord Hmix.
    destruct (ops_ordering operator Hord) as [f ->].
    rewrite (py_cmp_mixed _ _ Hmix). reflexivity.
Qed.

Lemma check_condition_fails_open_witness :
  check_condition ("x", "~", VInt 3) {["x" := VStr "abc"]} = Returned false
  ∧ check_condition ("x", ">", VInt 3) {["x" := VStr "abc"]} = Raised TypeError.
Proof.
  split.
  - apply (check_condition_fails_open "x" "~" (VInt 3) {["x" := VStr "abc"]}).
    rewrite !not_elem_of_cons. repeat split; try discriminate. apply not_elem_of_nil.
  - destruct (check_condition_fails_open "x" ">" (VInt 3) {["x" := VStr "abc"]})
      as (_ & _ & _ & H).
    apply (H (VStr "abc")).
    + reflexivity.
    + set_solver.
    + simpl. tauto.
Defined.

(** ** The engine: firing steps and loop invariants *)

Lemma rule_body_Returned (rule : InferenceRule) (st st' : state) :
  rule_body rule st = Returned st' → st' = st ∨ fires rule st st'.
Proof.
  unfold rule_body. case_bool_decide as Hin; [intros [= <-]; by left|].
  destruct (all_conditions _ _) as [[|]|e] eqn:Hall; simpl;
    [|intros [= <-]; by left|discriminate].
  destruct (conclusion rule) as [k v] eqn:Hc.
  destruct (differs _ k v) eqn:Hd; intros [= <-]; [right|by left].
  pose proof (fires_intro rule st Hin Hall) as H.
  rewrite Hc in H. simpl in H. auto.
Qed.

Lemma rule_body_fires (rule : InferenceRule) (st st' : state) :
  fires rule st st' → rule_body rule st = Returned st'.
Proof.
  intros [Hin Hall Hd]. unfold rule_body.
  rewrite bool_decide_eq_false_2 by done. rewrite Hall. simpl.
  destruct (conclusion rule) as [k v]. simpl in *. by rewrite Hd.
Qed.

Section invariants.
Variable rs : list InferenceRule.

(** A property of the facts, the firing record and the flag that every
    firing of a rule of the rule set preserves. *)
Variable P : state → Prop.
Hypothesis P_fires : ∀ rule st st',
  rule ∈ rs → P st → fires rule st st' → P st'.

Lemma for_rules_invariant (rs' : list InferenceRule) (st st' : state) :
  rs' ⊆ rs → P st → for_rules rs' st = Returned st' → P st'.
Proof.
  revert st. induction rs' as [|rule rs' IH]; simpl; intros st Hsub HP.
  - by intros [= <-].
  - destruct (rule_body rule st) as [st1|e] eqn:Hb; simpl; [|discriminate].
    apply IH; [set_solver|].
    destruct (rule_body_Returned _ _ _ Hb) as [->|Hf]; [done|].
    eapply P_fires; [|done..]. set_solver.
Qed.

(** The flag is reset before each pass. *)
Hypothesis P_reset : ∀ st,
  P st → P {| facts := facts st; triggered_rules := triggered_rules st;
              new_fact_added := false |}.

Lemma while_loop_invariant (fuel : nat) (st st' : state) (p n : nat) :
  P st → while_loop fuel rs st p = Some (Returned st', n) → P st'.
Proof.
  revert st p. induction fuel as [|fuel IH]; simpl; intros st p HP.
  - destruct (new_fact_added st); [discriminate|]. by intros [= <- _].
  - destruct (new_fact_added st); [|by intros [= <- _]].
    destruct (pass rs st) as [st1|e] eqn:Hp; [|discriminate].
    apply IH. eapply for_rules_invariant; [done| |exact Hp]. by apply P_reset.
Qed.
End invariants.

(** The same for properties of the facts and the firing record alone. *)
Lemma run_invariant (P : gmap string value → list string → Prop)
    (fuel : nat) (self : t) (initial_facts final : gmap string value)
    (fired : list string) (n : nat) :
  (∀ rule fs tr, rule ∈ rules self → P fs tr →
     identifier rule ∉ tr →
     all_conditions (conditions rule) fs = Returned true →
     differs fs (conclusion rule).1 (conclusion rule).2 = true →
     P (<[(conclusion rule).1 := (conclusion rule).2]> fs) (tr ++ [identifier rule])) →
  P initial_facts [] →
  run fuel self initial_facts = Some (Returned (final, fired), n) →
  P final fired.
Proof.
  intros Hstep H0. unfold run.
  destruct (while_loop _ _ _ _) as [[[st|e] m]|] eqn:Hw; [|discriminate..].
  intros [= <- <- _].
  apply (while_loop_invariant (rules self)
           (λ st, P (facts st) (triggered_rules st))) in Hw; simpl; auto.
  intros rule st0 st1 Hin HP [? ? ?]. simpl. by apply Hstep.
Qed.

(** C1: in the pair returned by [run], no rule identifier occurs twice in
    the firing record, whatever the rule set and the initial facts. *)
Theorem run_fires_at_most_once (fuel : nat) (self : t)
    (initial_facts final : gmap string value) (fired : list string) (n : nat) :
  run fuel self initial_facts = Some (Returned (final, fired), n) →
  NoDup fired.
Proof.
  apply (run_invariant (λ _ tr, NoDup tr)).
  - intros rule fs tr _ Hnd Hin _ _.
    apply NoDup_app. split_and!; [done| |apply NoDup_singleton].
    intros x Hx ->%list_elem_of_singleton. done.
  - constructor.
Qed.

Lemma run_fires_at_most_once_witness :
  run 5 (__init__ [rule_R2; rule_R1]) {["a" := VInt 1]}
    = Some (Returned (<["c" := VInt 1]> (<["b" := VInt 1]> {["a" := VInt 1]}),
                      ["R1"; "R2"]), 2)
  ∧ NoDup ["R1"; "R2"].
Proof.
  assert (run 5 (__init__ [rule_R2; rule_R1]) {["a" := VInt 1]}
    = Some (Returned (<["c" := VInt 1]> (<["b" := VInt 1]> {["a" := VInt 1]}),
                      ["R1"; "R2"]), 2)) as H by (vm_compute; reflexivity).
  split; [exact H|]. exact (run_fires_at_most_once _ _ _ _ _ _ H).
Defined.

(** ** Termination and the number of passes *)

(** A pass only ever extends the firing record, and sets the flag only
    when it extends it. *)
Lemma for_rules_progress (rs : list InferenceRule) (st st' : state) :
  for_rules rs st = Returned st' →
  length (triggered_rules st) ≤ length (triggered_rules st')
  ∧ (new_fact_added st' = true →
     new_fact_added st = true
     ∨ length (triggered_rules st) < length (triggered_rules st')).
Proof.
  apply (for_rules_invariant rs
    (λ s, length (triggered_rules st) ≤ length (triggered_rules s)
          ∧ (new_fact_added s = true →
             new_fact_added st = true
             ∨ length (triggered_rules st) < length (triggered_rules s)))); auto.
  intros rule s s' _ [Hle _] [_ _ _]. simpl. rewrite length_app. simpl.
  split; [lia|]. intros _. right. lia.
Qed.

Lemma record_ok_fires (rs : list InferenceRule) (rule : InferenceRule)
    (st st' : state) :
  rule ∈ rs → record_ok rs st → fires rule st st' → record_ok rs st'.
Proof.
  intros Hin [Hnd Hsub] [Hnot _ _]. split; simpl.
  - apply NoDup_app. split_and!; [done| |apply NoDup_singleton].
    intros x Hx ->%list_elem_of_singleton. done.
  - intros x [Hx| ->%list_elem_of_singleton]%elem_of_app; [by apply Hsub|].
    by apply list_elem_of_fmap_2.
Qed.

Lemma record_ok_length (rs : list InferenceRule) (st : state) :
  record_ok rs st → length (triggered_rules st) ≤ length rs.
Proof.
  intros [Hnd Hsub]. rewrite <- (length_fmap identifier rs).
  apply submseteq_length, NoDup_submseteq; done.
Qed.

Lemma pass_record_ok (rs : list InferenceRule) (st st' : state) :
  record_ok rs st → pass rs st = Returned st' → record_ok rs st'.
Proof.
  intros Hok. apply (for_rules_invariant rs (record_ok rs)); [|done|done].
  intros rule s s' Hin. by apply record_ok_fires.
Qed.

(** With enough fuel the loop ends, after at most one iteration per rule
    not yet fired plus one. *)
Lemma while_loop_terminates (rs : list InferenceRule) (fuel : nat)
    (st : state) (p : nat) :
  record_ok rs st →
  length rs - length (triggered_rules st) < fuel →
  ∃ r n, while_loop fuel rs st p = Some (r, n)
         ∧ n ≤ p + (length rs - length (triggered_rules st)) + 1.
Proof.
  revert st p. induction fuel as [|fuel IH]; intros st p Hok Hfuel; [lia|].
  simpl. destruct (new_fact_added st) eqn:Hflag; [|eexists _, _; split; [done|lia]].
  destruct (pass rs st) as [st'|e] eqn:Hp; [|eexists _, _; split; [done|lia]].
  pose proof (pass_record_ok _ _ _ Hok Hp) as Hok'.
  pose proof (record_ok_length _ _ Hok') as Hlen.
  destruct (for_rules_progress _ _ _ Hp) as [Hle Hflag']. simpl in *.
  destruct (new_fact_added st') eqn:Hnew.
  - destruct (Hflag' eq_refl) as [?|Hlt]; [done|].
    destruct (IH st' (S p) Hok') as (r & n & Hw & Hn); [lia|].
    exists r, n. split; [done|lia].
  - exists (Returned st'), (S p). split; [|lia].
    destruct fuel; simpl; by rewrite Hnew.
Qed.

(** The outcome does not depend on the fuel, which is at least the number
    of iterations executed. *)
Lemma while_loop_fuel (rs : list InferenceRule) (fuel : nat) (st : state)
    (p n : nat) (r : outcome state) :
  while_loop fuel rs st p = Some (r, n) →
  p ≤ n ∧ n - p ≤ fuel
  ∧ ∀ fuel', n - p ≤ fuel' → while_loop fuel' rs st p = Some (r, n).
Proof.
  revert st p. induction fuel as [|fuel IH]; simpl; intros st p.
  - destruct (new_fact_added st) eqn:Hflag; [discriminate|].
    intros [= <- <-]. split_and!; [lia..|].
    intros [|fuel'] _; simpl; by rewrite Hflag.
  - destruct (new_fact_added st) eqn:Hflag.
    + destruct (pass rs st) as [st'|e] eqn:Hp.
      * intros (Hle & Hfuel & Hmono)%IH. split_and!; [lia..|].
        intros [|fuel'] Hf; [lia|]. simpl. rewrite Hflag, Hp.
        apply Hmono. lia.
      * intros [= <- <-]. split_and!; [lia..|].
        intros [|fuel'] Hf; [lia|]. simpl. by rewrite Hflag, Hp.
    + intros [= <- <-]. split_and!; [lia..|].
      intros [|fuel'] _; simpl; by rewrite Hflag.
Qed.

Lemma run_fuel (fuel : nat) (self : t) (initial_facts : gmap string value)
    (r : outcome (gmap string value * list string)) (n : nat) :
  run fuel self initial_facts = Some (r, n) →
  n ≤ fuel ∧ ∀ fuel', n ≤ fuel' → run fuel' self initial_facts = Some (r, n).
Proof.
  unfold run.
  destruct (while_loop fuel _ _ _) as [[r0 m]|] eqn:Hw; [|discriminate].
  apply while_loop_fuel in Hw as (_ & Hfuel & Hmono). intros Hr.
  assert (m = n) as -> by (destruct r0; congruence).
  split; [lia|]. intros fuel' Hf. rewrite Hmono by lia. exact Hr.
Qed.

(** With room for one iteration more than there are rules, the run ends. *)
Lemma run_enough_fuel (fuel : nat) (self : t) (initial_facts : gmap string value) :
  length (rules self) < fuel →
  ∃ r n, run fuel self initial_facts = Some (r, n) ∧ n ≤ length (rules self) + 1.
Proof.
  intros Hfuel.
  destruct (while_loop_terminates (rules self) fuel
              {| facts := initial_facts; triggered_rules := [];
                 new_fact_added := true |} 0)
    as (r0 & n & Hw & Hn).
  { split; [constructor|]. intros x Hx. by apply elem_of_nil in Hx. }
  { simpl. lia. }
  simpl in Hn. unfold run. rewrite Hw.
  destruct r0; eexists _, n; (split; [done|lia]).
Qed.

(** C2: [run] ends, and the [while] loop executes at most one iteration
    more than there are rules: some number [n] of at most N+1 iterations
    is the number the loop executes, in that the run completes exactly
    when it is allowed [n] iterations or more. *)
Theorem run_terminates (self : t) (initial_facts : gmap string value) :
  ∃ r n, n ≤ length (rules self) + 1
    ∧ (∀ fuel, n ≤ fuel → run fuel self initial_facts = Some (r, n))
    ∧ (∀ fuel, fuel < n → run fuel self initial_facts = None).
Proof.
  destruct (run_enough_fuel (S (length (rules self))) self initial_facts)
    as (r & n & Hr & Hn); [lia|].
  destruct (run_fuel _ _ _ _ _ Hr) as [_ Hmono].
  exists r, n. split_and!; [lia|exact Hmono|].
  intros fuel Hlt. destruct (run fuel self initial_facts) as [[r' n']|] eqn:Hr'; [|done].
  destruct (run_fuel _ _ _ _ _ Hr') as [Hle Hmono'].
  specialize (Hmono (Nat.max n n') ltac:(lia)).
  specialize (Hmono' (Nat.max n n') ltac:(lia)).
  rewrite Hmono in Hmono'. injection Hmono' as _ ->. lia.
Qed.

Lemma run_terminates_witness :
  ∃ r n, n ≤ 3 ∧ run 3 (__init__ [rule_R1; rule_R2]) {["a" := VInt 1]} = Some (r, n).
Proof.
  destruct (run_terminates (__init__ [rule_R1; rule_R2]) {["a" := VInt 1]})
    as (r & n & Hn & Hrun & _).
  exists r, n. split; [exact Hn|]. apply Hrun. exact Hn.
Defined.

(** ** What the final facts are *)

Lemma differs_same (fs : gmap string value) (k : string) (v : value) :
  fs !! k = Some v → differs fs k v = false.
Proof. intros H. unfold differs. rewrite H. by apply py_ne_false. Qed.

Lemma foldl_apply_conclusion_is_Some (frs : list InferenceRule)
    (fs : gmap string value) (k : string) :
  is_Some (fs !! k) → is_Some (foldl apply_conclusion fs frs !! k).
Proof.
  revert fs. induction frs as [|r frs IH]; simpl; intros fs Hk; [done|].
  apply IH. unfold apply_conclusion.
  destruct (decide ((conclusion r).1 = k)) as [<-|Hne].
  - rewrite lookup_insert_eq. eauto.
  - by rewrite lookup_insert_ne.
Qed.

Lemma foldl_apply_conclusion_other (frs : list InferenceRule)
    (fs : gmap string value) (k : string) :
  Forall (λ r, (conclusion r).1 ≠ k) frs →
  foldl apply_conclusion fs frs !! k = fs !! k.
Proof.
  revert fs. induction frs as [|r frs IH]; simpl; intros fs Hall; [done|].
  apply Forall_cons in Hall as [Hr Hall]. rewrite IH by done.
  unfold apply_conclusion. by rewrite lookup_insert_ne.
Qed.

Lemma fmap_NoDup_inj {A B : Type} (f : A → B) (l : list A) (x y : A) :
  NoDup (f <$> l) → x ∈ l → y ∈ l → f x = f y → x = y.
Proof.
  induction l as [|a l IH]; simpl; [by intros _ ?%elem_of_nil|].
  intros [Hnot Hnd]%NoDup_cons [->|Hx]%elem_of_cons [->|Hy]%elem_of_cons Hf; auto.
  - destruct Hnot. rewrite Hf. by apply list_elem_of_fmap_2.
  - destruct Hnot. rewrite <- Hf. by apply list_elem_of_fmap_2.
Qed.

Lemma foldl_apply_conclusion_elem (frs : list InferenceRule)
    (fs : gmap string value) (r : InferenceRule) :
  r ∈ frs → is_Some (foldl apply_conclusion fs frs !! (conclusion r).1).
Proof.
  revert fs. induction frs as [|r' frs IH]; simpl; intros fs Hr.
  - by apply elem_of_nil in Hr.
  - apply elem_of_cons in Hr as [->|Hr]; [|by apply IH].
    apply foldl_apply_conclusion_is_Some. unfold apply_conclusion.
    rewrite lookup_insert_eq. eauto.
Qed.

(** C10, at the failing input: D1 and D2 carry the same identifier; D1
    fires and D2, whose identifier is then in the firing record, never
    does, so the final facts are not the initial facts updated with the
    conclusion of each rule whose identifier is in the record. *)
Lemma final_facts_duplicate_identifier :
  let self := __init__ [rule_D1; rule_D2] in
  let initial_facts : gmap string value := {["a" := VInt 1]} in
  ∃ final fired n,
    run 5 self initial_facts = Some (Returned (final, fired), n)
    ∧ fired = ["D"]
    ∧ final = <["k" := VInt 1]> initial_facts
    ∧ ¬ ∃ frs : list InferenceRule,
          (∀ r, r ∈ rules self → identifier r ∈ fired → r ∈ frs)
          ∧ final = foldl apply_conclusion initial_facts frs.
Proof.
  intros self initial_facts.
  exists (<["k" := VInt 1]> initial_facts), ["D"], 2.
  split_and!; [vm_compute; reflexivity|done|done|].
  intros (frs & Hall & Hfinal).
  assert (rule_D2 ∈ frs) as Hin.
  { apply Hall; [|constructor]. unfold self. simpl. do 2 constructor. }
  apply (foldl_apply_conclusion_elem frs initial_facts) in Hin.
  rewrite <- Hfinal in Hin. simpl in Hin.
  assert ((<["k" := VInt 1]> initial_facts : gmap string value) !! "j" = None) as Hj
    by (vm_compute; reflexivity).
  rewrite Hj in Hin. by destruct Hin.
Qed.

(** C10 (amended): the final facts are the initial facts updated, in firing
    order, with the conclusions of the rules that fired, a list of rules
    of the rule set whose identifiers, in this order, are the firing
    record; when the identifiers of the rule set are unique, these are
    exactly the rules whose identifier is in the record; no initial key is
    removed, and a key whose final value is new or changed is the
    conclusion key of a rule that fired. *)
Theorem run_final_facts (fuel : nat) (self : t)
    (initial_facts final : gmap string value) (fired : list string) (n : nat) :
  run fuel self initial_facts = Some (Returned (final, fired), n) →
  ∃ frs : list InferenceRule,
    frs ⊆ rules self
    ∧ identifier <$> frs = fired
    ∧ final = foldl apply_conclusion initial_facts frs
    ∧ (NoDup (identifier <$> rules self) →
       ∀ r, r ∈ rules self → (r ∈ frs ↔ identifier r ∈ fired))
    ∧ (∀ k, is_Some (initial_facts !! k) → is_Some (final !! k))
    ∧ (∀ k, final !! k ≠ initial_facts !! k →
         ∃ r, r ∈ frs ∧ (conclusion r).1 = k).
Proof.
  intros Hrun.
  assert (∃ frs, frs ⊆ rules self ∧ identifier <$> frs = fired
                 ∧ final = foldl apply_conclusion initial_facts frs)
    as (frs & Hsub & Hids & ->).
  { revert Hrun. apply (run_invariant (λ fs tr,
      ∃ frs, frs ⊆ rules self ∧ identifier <$> frs = tr
             ∧ fs = foldl apply_conclusion initial_facts frs)).
    - intros rule fs tr Hin (frs & Hsub & <- & ->) _ _ _.
      exists (frs ++ [rule]). split_and!.
      + intros x [?| ->%list_elem_of_singleton]%elem_of_app; auto.
      + by rewrite fmap_app.
      + by rewrite foldl_app.
    - exists []. split_and!; [|done..]. intros x Hx. by apply elem_of_nil in Hx. }
  exists frs. split_and!; [done..| | |].
  - intros Hnd r Hr. split.
    + intros Hin. rewrite <- Hids. by apply list_elem_of_fmap_2.
    + rewrite <- Hids. intros (r' & Hid & Hr')%list_elem_of_fmap.
      by rewrite (fmap_NoDup_inj identifier (rules self) r r' Hnd Hr (Hsub _ Hr') Hid).
  - intros k. apply foldl_apply_conclusion_is_Some.
  - intros k Hk.
    destruct (decide (Exists (λ r, (conclusion r).1 = k) frs)) as [He|Hne].
    + apply Exists_exists in He. exact He.
    + destruct Hk. apply foldl_apply_conclusion_other.
      by apply Forall_Exists_neg.
Qed.

Lemma run_final_facts_witness :
  ∃ frs : list InferenceRule,
    identifier <$> frs = ["R1"; "R2"]
    ∧ <["c" := VInt 1]> (<["b" := VInt 1]> {["a" := VInt 1]})
      = foldl apply_conclusion ({["a" := VInt 1]} : gmap string value) frs.
Proof.
  destruct (run_final_facts 5 (__init__ [rule_R2; rule_R1]) {["a" := VInt 1]}
              (<["c" := VInt 1]> (<["b" := VInt 1]> {["a" := VInt 1]}))
              ["R1"; "R2"] 2) as (frs & _ & Hids & Hfinal & _).
  { vm_compute. reflexivity. }
  exists frs. split; assumption.
Defined.

(** ** Conclusions that already hold initially *)

(** C4, at the failing input: RB concludes k = 1, which holds initially,
    and RB fires all the same, after RA has set k to 2. *)
Lemma no_op_suppression_overwritten :
  ({["a" := VInt 1; "k" := VInt 1]} : gmap string value)
    !! (conclusion rule_RB).1 = Some (conclusion rule_RB).2
  ∧ ∃ final fired n,
      run 5 (__init__ [rule_RA; rule_RB]) {["a" := VInt 1; "k" := VInt 1]}
        = Some (Returned (final, fired), n)
      ∧ identifier rule_RB ∈ fired.
Proof.
  split; [vm_compute; reflexivity|].
  eexists _, ["RA"; "RB"], _. split; [vm_compute; reflexivity|].
  set_solver.
Qed.

(** C4 (amended): if the initial facts map the conclusion key of a rule to
    its conclusion value, and every rule of the rule set that concludes on
    that key or carries that identifier has this same conclusion, then the
    rule's identifier is not in the firing record that [run] returns,
    whatever its conditions. *)
Theorem run_no_op_suppression (fuel : nat) (self : t)
    (initial_facts final : gmap string value) (fired : list string) (n : nat)
    (rule : InferenceRule) :
  initial_facts !! (conclusion rule).1 = Some (conclusion rule).2 →
  (∀ r, r ∈ rules self →
     (conclusion r).1 = (conclusion rule).1 ∨ identifier r = identifier rule →
     conclusion r = conclusion rule) →
  run fuel self initial_facts = Some (Returned (final, fired), n) →
  identifier rule ∉ fired.
Proof.
  intros Hinit Hsame Hrun.
  cut (final !! (conclusion rule).1 = Some (conclusion rule).2
       ∧ identifier rule ∉ fired); [tauto|].
  revert Hrun. apply (run_invariant (λ fs tr,
    fs !! (conclusion rule).1 = Some (conclusion rule).2 ∧ identifier rule ∉ tr)).
  - intros r fs tr Hin [Hk Hid] _ _ Hd.
    assert (conclusion r ≠ conclusion rule) as Hne.
    { intros Heq. rewrite Heq, (differs_same _ _ _ Hk) in Hd. discriminate. }
    split.
    + rewrite lookup_insert_ne; [done|]. intros Heq. apply Hne, Hsame; auto.
    + intros [?|Heq%list_elem_of_singleton]%elem_of_app; [done|].
      apply Hne, Hsame; auto.
  - split; [done|]. apply not_elem_of_nil.
Qed.

Lemma run_no_op_suppression_witness :
  ({["a" := VInt 1; "b" := VInt 1]} : gmap string value)
    !! (conclusion rule_R1).1 = Some (conclusion rule_R1).2
  ∧ identifier rule_R1 ∉ ["R2"].
Proof.
  split; [vm_compute; reflexivity|].
  apply (run_no_op_suppression 5 (__init__ [rule_R1; rule_R2])
           {["a" := VInt 1; "b" := VInt 1]}
           (<["c" := VInt 1]> {["a" := VInt 1; "b" := VInt 1]}) ["R2"] 2 rule_R1).
  - vm_compute. reflexivity.
  - intros r Hr Hor. vm_compute in Hr.
    apply elem_of_cons in Hr as [->|Hr]; [done|].
    apply list_elem_of_singleton in Hr as ->.
    destruct Hor as [Hor|Hor]; vm_compute in Hor; discriminate.
  - vm_compute. reflexivity.
Defined.

(** ** Construction of the rule set *)

Lemma insert_by_priority_Permutation (r : InferenceRule) (l : list InferenceRule) :
  insert_by_priority r l ≡ₚ r :: l.
Proof.
  induction l as [|r' l IH]; simpl; [done|].
  destruct (priority r <? priority r')%Z; [|done].
  rewrite IH. apply Permutation_swap.
Qed.

Lemma sorted_by_priority_desc_Permutation (rs : list InferenceRule) :
  sorted_by_priority_desc rs ≡ₚ rs.
Proof.
  induction rs as [|r rs IH]; simpl; [done|].
  by rewrite insert_by_priority_Permutation, IH.
Qed.

Lemma insert_by_priority_sorted (r : InferenceRule) (l : list InferenceRule) :
  StronglySorted (λ a b, (priority b ≤ priority a)%Z) l →
  StronglySorted (λ a b, (priority b ≤ priority a)%Z) (insert_by_priority r l).
Proof.
  induction 1 as [|r' l Hs IH Hall]; simpl; [repeat constructor|].
  destruct (Z.ltb_spec (priority r) (priority r')) as [Hlt|Hge].
  - constructor; [done|]. rewrite insert_by_priority_Permutation.
    constructor; [lia|done].
  - constructor; [by constructor|]. constructor; [done|].
    eapply Forall_impl; [exact Hall|]. simpl. intros x Hx. lia.
Qed.

Lemma sorted_by_priority_desc_sorted (rs : list InferenceRule) :
  StronglySorted (λ a b, (priority b ≤ priority a)%Z) (sorted_by_priority_desc rs).
Proof.
  induction rs as [|r rs IH]; simpl; [constructor|].
  by apply insert_by_priority_sorted.
Qed.

Lemma StronglySorted_lookup_lt {A : Type} (R : relation A) (l : list A)
    (i j : nat) (x y : A) :
  StronglySorted R l → l !! i = Some x → l !! j = Some y → i < j → R x y.
Proof.
  intros Hs. revert i j. induction Hs as [|a l Hs IH Hall]; intros i j; [done|].
  destruct i as [|i], j as [|j]; simpl; try lia.
  - intros [= ->] Hy _. rewrite Forall_forall in Hall.
    apply Hall. by eapply list_elem_of_lookup_2.
  - intros Hx Hy Hlt. apply (IH i j); [done..|lia].
Qed.

Lemma insert_by_priority_filter (p : Z) (r : InferenceRule) (l : list InferenceRule) :
  filter (λ x, priority x = p) (insert_by_priority r l)
  = filter (λ x, priority x = p) (r :: l).
Proof.
  induction l as [|r' l IH]; simpl; [done|].
  destruct (Z.ltb_spec (priority r) (priority r')) as [Hlt|Hge]; [|done].
  rewrite (filter_cons _ r'), IH, !(filter_cons _ r), (filter_cons _ r').
  repeat case_decide; try done. lia.
Qed.

Lemma sorted_by_priority_desc_filter (p : Z) (rs : list InferenceRule) :
  filter (λ x, priority x = p) (sorted_by_priority_desc rs)
  = filter (λ x, priority x = p) rs.
Proof.
  induction rs as [|r rs IH]; simpl; [done|].
  by rewrite insert_by_priority_filter, !filter_cons, IH.
Qed.

(** C6: the rule list of a constructed engine holds the given rules
    (it is a permutation of the input), every rule of higher priority
    stands before every rule of lower priority, and for each priority the
    rules of that priority stand in their input order.  On the object
    store, construction allocates a new list: the caller's list is still
    there, unchanged, and so is every other object. *)
Theorem init_sorts_stably (rs : list InferenceRule) :
  rules (__init__ rs) ≡ₚ rs
  ∧ (∀ i j ri rj,
       rules (__init__ rs) !! i = Some ri → rules (__init__ rs) !! j = Some rj →
       (priority rj < priority ri)%Z → i < j)
  ∧ (∀ p, filter (λ r, priority r = p) (rules (__init__ rs))
          = filter (λ r, priority r = p) rs)
  ∧ (∀ (h : gmap nat Heap.object) (l : nat),
       h !! l = Some (Heap.RuleList rs) →
       ∃ h' l', Heap.__init__ h l = Some (h', l')
         ∧ h' !! l' = Some (Heap.RuleList (rules (__init__ rs)))
         ∧ h' !! l = Some (Heap.RuleList rs)
         ∧ ∀ l0, is_Some (h !! l0) → h' !! l0 = h !! l0).
Proof.
  simpl. split_and!.
  - apply sorted_by_priority_desc_Permutation.
  - intros i j ri rj Hi Hj Hlt.
    destruct (decide (i < j)) as [|Hge]; [done|exfalso].
    destruct (decide (i = j)) as [->|Hne].
    { rewrite Hi in Hj. injection Hj as ->. lia. }
    pose proof (StronglySorted_lookup_lt _ _ j i rj ri
                  (sorted_by_priority_desc_sorted rs) Hj Hi ltac:(lia)) as H.
    simpl in H. lia.
  - intros p. apply sorted_by_priority_desc_filter.
  - intros h l Hl. unfold Heap.__init__, Heap.alloc. rewrite Hl.
    assert (∀ l0, is_Some (h !! l0) → fresh (dom h) ≠ l0) as Hfresh.
    { intros l0 Hl0%elem_of_dom <-. by apply (is_fresh (dom h)). }
    eexists _, _. split_and!; [done| | |].
    + by rewrite lookup_insert_eq.
    + rewrite lookup_insert_ne; [done|]. apply Hfresh. by rewrite Hl.
    + intros l0 Hl0. rewrite lookup_insert_ne; [done|]. by apply Hfresh.
Qed.

Lemma init_sorts_stably_witness :
  rules (__init__ [rule_R2; rule_RB; rule_R1; rule_RA])
    = [rule_R1; rule_RA; rule_R2; rule_RB]
  ∧ ∃ h' l', Heap.__init__ {[ 0 := Heap.RuleList [rule_R2; rule_R1] ]} 0 = Some (h', l')
      ∧ h' !! 0 = Some (Heap.RuleList [rule_R2; rule_R1]).
Proof.
  split; [vm_compute; reflexivity|].
  destruct (init_sorts_stably [rule_R2; rule_R1]) as (_ & _ & _ & H).
  destruct (H {[ 0 := Heap.RuleList [rule_R2; rule_R1] ]} 0) as (h' & l' & Hi & _ & Hl & _).
  { vm_compute. reflexivity. }
  exists h', l'. split; assumption.
Defined.

(** ** The run over the object store *)

Lemma heap_rule_body (rule : InferenceRule) (h : gmap nat Heap.object)
    (fr : Heap.frame) (d : gmap string value) :
  h !! Heap.facts fr = Some (Heap.Dict d) →
  refines (Heap.facts fr) h (Heap.rule_body rule h fr).1
    (Heap.rule_body rule h fr).2 (rule_body rule (frame_state d fr)).
Proof.
  intros Hd. unfold Heap.rule_body, rule_body, Heap.read_dict. rewrite Hd. simpl.
  case_bool_decide; [by split|].
  destruct (all_conditions _ d) as [[|]|e]; simpl; [|by split|by split].
  destruct (conclusion rule) as [k v].
  destruct (differs d k v); simpl; [|by split].
  split; [|split_and!; try done].
  - intros l0 Hl0. by rewrite lookup_insert_ne.
  - by rewrite lookup_insert_eq.
Qed.

Lemma refines_trans (l : nat) (h1 h2 h3 : gmap nat Heap.object)
    (r : outcome Heap.frame) (r' : outcome state) :
  (∀ l0, l0 ≠ l → h2 !! l0 = h1 !! l0) →
  refines l h2 h3 r r' → refines l h1 h3 r r'.
Proof.
  intros H12 [H23 Hr]. split; [|done].
  intros l0 Hl0. by rewrite H23, H12.
Qed.

Lemma heap_for_rules (rs : list InferenceRule) (h : gmap nat Heap.object)
    (fr : Heap.frame) (d : gmap string value) :
  h !! Heap.facts fr = Some (Heap.Dict d) →
  refines (Heap.facts fr) h (Heap.for_rules rs h fr).1
    (Heap.for_rules rs h fr).2 (for_rules rs (frame_state d fr)).
Proof.
  revert h fr d. induction rs as [|rule rs IH]; intros h fr d Hd; simpl.
  - by split.
  - pose proof (heap_rule_body rule h fr d Hd) as [Hoff Hb].
    destruct (Heap.rule_body rule h fr) as [h1 [fr1|e]]; simpl in *;
      destruct (rule_body rule (frame_state d fr)) as [st1|e']; simpl; try done.
    destruct Hb as (Hl & Hd1 & <-). rewrite <- Hl in Hd1.
    pose proof (IH h1 fr1 _ Hd1) as Href. rewrite Hl in Href.
    eapply refines_trans; done.
Qed.

Lemma heap_while_loop (fuel : nat) (rs : list InferenceRule)
    (h : gmap nat Heap.object) (fr : Heap.frame) (d : gmap string value)
    (p : nat) :
  h !! Heap.facts fr = Some (Heap.Dict d) →
  match Heap.while_loop fuel rs h fr p, while_loop fuel rs (frame_state d fr) p with
  | None, None => True
  | Some (h', r, n), Some (r', n') => n = n' ∧ refines (Heap.facts fr) h h' r r'
  | _, _ => False
  end.
Proof.
  revert h fr d p. induction fuel as [|fuel IH]; intros h fr d p Hd; simpl.
  - destruct (Heap.new_fact_added fr); [done|]. by repeat split.
  - destruct (Heap.new_fact_added fr) eqn:Hflag; [|by repeat split].
    unfold pass. simpl.
    pose proof (heap_for_rules rs h
      {| Heap.facts := Heap.facts fr;
         Heap.triggered_rules := Heap.triggered_rules fr;
         Heap.new_fact_added := false |} d Hd) as [Hoff Hb].
    unfold frame_state in Hb. simpl in *.
    destruct (Heap.for_rules rs h _) as [h1 [fr1|e]]; simpl in *;
      destruct (for_rules rs _) as [st1|e']; simpl; try done.
    destruct Hb as (Hl & Hd1 & <-). rewrite <- Hl in Hd1.
    specialize (IH h1 fr1 _ (S p) Hd1). rewrite Hl in IH.
    destruct (Heap.while_loop fuel rs h1 fr1 (S p)) as [[[h2 r] n]|];
      destruct (while_loop fuel rs _ (S p)) as [[r' n']|]; try done.
    destruct IH as [-> Href]. split; [done|]. eapply refines_trans; done.
Qed.

Lemma heap_run_spec (fuel : nat) (self : t) (h : gmap nat Heap.object)
    (l : nat) (d : gmap string value) :
  h !! l = Some (Heap.Dict d) →
  match Heap.run fuel self h l, run fuel self d with
  | None, None => True
  | Some (h', Returned (l', fired), n), Some (Returned (final, fired'), n') =>
      fired = fired' ∧ n = n' ∧ l' = fresh (dom h)
      ∧ h' !! l' = Some (Heap.Dict final)
      ∧ ∀ l0, l0 ≠ l' → h' !! l0 = h !! l0
  | Some (h', Raised e, n), Some (Raised e', n') => e = e' ∧ n = n'
  | _, _ => False
  end.
Proof.
  intros Hd. unfold Heap.run, Heap.alloc, run. rewrite Hd.
  set (l' := fresh (dom h)).
  pose proof (heap_while_loop fuel (rules self) (<[l' := Heap.Dict d]> h)
    {| Heap.facts := l'; Heap.triggered_rules := []; Heap.new_fact_added := true |}
    d 0 (lookup_insert_eq _ _ _)) as Hsim.
  unfold frame_state in Hsim. simpl in Hsim.
  destruct (Heap.while_loop fuel _ _ _ _) as [[[h' r] m]|];
    destruct (while_loop fuel _ _ _) as [[r' m']|]; try done.
  destruct Hsim as [-> [Hoff Hr]].
  destruct r as [fr|e], r' as [st|e']; try done.
  - destruct Hr as (Hfl & Hst & Habs). rewrite Hfl.
    split_and!; [by rewrite <- Habs|done..|].
    intros l0 Hl0. by rewrite Hoff, lookup_insert_ne.
  - by destruct Hr as [-> _].
Qed.

(** C9: [run] works on a copy.  Given the address of the caller's
    dictionary and room for one iteration more than there are rules, the
    run over the object store ends; afterwards the caller's dictionary and
    every other object there was before are unchanged, and the dictionary
    returned is a new object, which holds the final facts of the run. *)
Theorem run_copies_initial_facts (fuel : nat) (self : t)
    (h : gmap nat Heap.object) (initial_facts : nat) (d : gmap string value) :
  h !! initial_facts = Some (Heap.Dict d) →
  length (rules self) < fuel →
  ∃ h' r n,
    Heap.run fuel self h initial_facts = Some (h', r, n)
    ∧ h' !! initial_facts = Some (Heap.Dict d)
    ∧ (∀ l0, is_Some (h !! l0) → h' !! l0 = h !! l0)
    ∧ match r with
      | Returned (l, fired) =>
          h !! l = None
          ∧ ∃ final, h' !! l = Some (Heap.Dict final)
              ∧ run fuel self d = Some (Returned (final, fired), n)
      | Raised e => run fuel self d = Some (Raised e, n)
      end.
Proof.
  intros Hd Hfuel.
  destruct (run_enough_fuel fuel self d Hfuel) as (r0 & n & Hrun & _).
  unfold Heap.run, Heap.alloc. rewrite Hd.
  set (l := fresh (dom h)).
  assert (h !! l = None) as Hl by apply not_elem_of_dom, is_fresh.
  pose proof (heap_while_loop fuel (rules self) (<[l := Heap.Dict d]> h)
    {| Heap.facts := l; Heap.triggered_rules := []; Heap.new_fact_added := true |}
    d 0 (lookup_insert_eq _ _ _)) as Hsim.
  unfold run in Hrun. unfold frame_state in Hsim. simpl in Hsim.
  destruct (Heap.while_loop fuel _ _ _ _) as [[[h' r] m]|];
    destruct (while_loop fuel _ _ _) as [[r' m']|] eqn:Hw; try done.
  destruct Hsim as [-> [Hoff Hr]].
  assert (∀ l0, is_Some (h !! l0) → h' !! l0 = h !! l0) as Hframe.
  { intros l0 Hl0. assert (l0 ≠ l) by (intros ->; rewrite Hl in Hl0; by destruct Hl0).
    by rewrite Hoff, lookup_insert_ne. }
  assert (h' !! initial_facts = Some (Heap.Dict d)) as Hsame.
  { rewrite Hframe; [done|]. by rewrite Hd. }
  unfold run. rewrite Hw.
  destruct r as [fr|e], r' as [st|e']; try done.
  - destruct Hr as (Hfl & Hst & Habs). injection Hrun as <- <-.
    eexists _, _, _. split_and!; [done..|]. simpl. rewrite Hfl.
    split; [done|]. eexists. split; [done|]. by rewrite <- Habs.
  - destruct Hr as [-> _]. eexists _, _, _. split_and!; done.
Qed.

Lemma run_copies_initial_facts_witness :
  ∃ h' r n,
    Heap.run 3 (__init__ [rule_R1; rule_R2]) {[ 7 := Heap.Dict {["a" := VInt 1]} ]} 7
      = Some (h', r, n)
    ∧ h' !! 7 = Some (Heap.Dict {["a" := VInt 1]}).
Proof.
  destruct (run_copies_initial_facts 3 (__init__ [rule_R1; rule_R2])
              {[ 7 := Heap.Dict {["a" := VInt 1]} ]} 7 {["a" := VInt 1]})
    as (h' & r & n & Hrun & Hsame & _).
  - vm_compute. reflexivity.
  - vm_compute. lia.
  - exists h', r, n. split; assumption.
Defined.

(** C3: [run] keeps no state and reads nothing but the rule list and the
    contents of the dictionary it is given.  Two invocations on the same
    rule set, in any two object stores, on dictionaries with the same
    contents at any two addresses, each with room for one iteration more
    than there are rules: both end, after the same number of iterations,
    and either both raise the same exception or both return the same
    firing record and dictionaries with the same final facts. *)
Theorem run_deterministic (fuel1 fuel2 : nat) (self : t)
    (h1 h2 : gmap nat Heap.object) (l1 l2 : nat) (d : gmap string value) :
  h1 !! l1 = Some (Heap.Dict d) →
  h2 !! l2 = Some (Heap.Dict d) →
  length (rules self) < fuel1 →
  length (rules self) < fuel2 →
  ∃ h1' h2' r1 r2 n,
    Heap.run fuel1 self h1 l1 = Some (h1', r1, n)
    ∧ Heap.run fuel2 self h2 l2 = Some (h2', r2, n)
    ∧ match r1, r2 with
      | Returned (a1, fired1), Returned (a2, fired2) =>
          fired1 = fired2
          ∧ ∃ final, h1' !! a1 = Some (Heap.Dict final)
                     ∧ h2' !! a2 = Some (Heap.Dict final)
      | Raised e1, Raised e2 => e1 = e2
      | _, _ => False
      end.
Proof.
  intros Hd1 Hd2 Hf1 Hf2.
  destruct (run_enough_fuel fuel1 self d Hf1) as (r0 & n & Hrun1 & Hn).
  destruct (run_fuel _ _ _ _ _ Hrun1) as [_ Hmono].
  pose proof (Hmono fuel2 ltac:(lia)) as Hrun2.
  pose proof (heap_run_spec fuel1 self h1 l1 d Hd1) as H1.
  pose proof (heap_run_spec fuel2 self h2 l2 d Hd2) as H2.
  rewrite Hrun1 in H1. rewrite Hrun2 in H2.
  destruct (Heap.run fuel1 self h1 l1) as [[[h1' r1] n1]|]; [|done].
  destruct (Heap.run fuel2 self h2 l2) as [[[h2' r2] n2]|]; [|done].
  destruct r0 as [[final fired]|e].
  - destruct r1 as [[a1 fired1]|e1]; [|done].
    destruct r2 as [[a2 fired2]|e2]; [|done].
    destruct H1 as (-> & -> & _ & Hfin1 & _).
    destruct H2 as (-> & -> & _ & Hfin2 & _).
    exists h1', h2', (Returned (a1, fired)), (Returned (a2, fired)), n.
    split_and!; [done..|]. exists final. by split.
  - destruct r1 as [[a1 fired1]|e1]; [done|].
    destruct r2 as [[a2 fired2]|e2]; [done|].
    destruct H1 as [-> ->]. destruct H2 as [-> ->].
    by exists h1', h2', (Raised e), (Raised e), n.
Qed.

Lemma run_deterministic_witness :
  ∃ h1' h2' r1 r2 n,
    Heap.run 3 (__init__ [rule_R1; rule_R2]) {[ 7 := Heap.Dict {["a" := VInt 1]} ]} 7
      = Some (h1', r1, n)
    ∧ Heap.run 5 (__init__ [rule_R1; rule_R2])
        (<[1 := Heap.Dict {["a" := VInt 1; "b" := VInt 1]}]>
           {[ 0 := Heap.Dict {["a" := VInt 1]} ]}) 0
      = Some (h2', r2, n).
Proof.
  destruct (run_deterministic 3 5 (__init__ [rule_R1; rule_R2])
              {[ 7 := Heap.Dict {["a" := VInt 1]} ]}
              (<[1 := Heap.Dict {["a" := VInt 1; "b" := VInt 1]}]>
                 {[ 0 := Heap.Dict {["a" := VInt 1]} ]})
              7 0 {["a" := VInt 1]})
    as (h1' & h2' & r1 & r2 & n & H1 & H2 & _).
  - vm_compute. reflexivity.
  - vm_compute. reflexivity.
  - vm_compute. lia.
  - vm_compute. lia.
  - exists h1', h2', r1, r2, n. split; assumption.
Defined.

(** ** Priority and firing order *)

Lemma for_rules_app (rs1 rs2 : list InferenceRule) (st : state) :
  for_rules (rs1 ++ rs2) st = bind (for_rules rs1 st) (for_rules rs2).
Proof.
  revert st. induction rs1 as [|r rs1 IH]; simpl; intros st; [done|].
  destruct (rule_body r st); simpl; auto.
Qed.

Lemma for_rules_prefix (rs : list InferenceRule) (st st' : state) :
  for_rules rs st = Returned st' →
  ∃ ext, triggered_rules st' = triggered_rules st ++ ext.
Proof.
  apply (for_rules_invariant rs
    (λ s, ∃ ext, triggered_rules s = triggered_rules st ++ ext)); [|done|].
  - intros rule s s' _ [ext Hs] [_ _ _]. simpl.
    exists (ext ++ [identifier rule]). by rewrite Hs, app_assoc.
  - exists []. by rewrite app_nil_r.
Qed.

Lemma while_loop_prefix (fuel : nat) (rs : list InferenceRule) (st st' : state)
    (p n : nat) :
  while_loop fuel rs st p = Some (Returned st', n) →
  ∃ ext, triggered_rules st' = triggered_rules st ++ ext.
Proof.
  apply (while_loop_invariant rs
    (λ s, ∃ ext, triggered_rules s = triggered_rules st ++ ext)).
  - intros rule s s' _ [ext Hs] [_ _ _]. simpl.
    exists (ext ++ [identifier rule]). by rewrite Hs, app_assoc.
  - auto.
  - exists []. by rewrite app_nil_r.
Qed.

Lemma for_rules_triggered_origin (rs : list InferenceRule) (st st' : state)
    (id : string) :
  for_rules rs st = Returned st' →
  id ∈ triggered_rules st' →
  id ∈ triggered_rules st ∨ id ∈ identifier <$> rs.
Proof.
  apply (for_rules_invariant rs
    (λ s, id ∈ triggered_rules s →
          id ∈ triggered_rules st ∨ id ∈ identifier <$> rs)); [|done|auto].
  intros rule s s' Hin HP [_ _ _]. simpl.
  intros [?| ->%list_elem_of_singleton]%elem_of_app; [auto|].
  right. by apply list_elem_of_fmap_2.
Qed.

Lemma for_rules_facts_frame (rs : list InferenceRule) (st st' : state)
    (k : string) :
  (∀ r, r ∈ rs → (conclusion r).1 ≠ k) →
  for_rules rs st = Returned st' →
  facts st' !! k = facts st !! k.
Proof.
  intros Hk.
  apply (for_rules_invariant rs (λ s, facts s !! k = facts st !! k)); [|done|done].
  intros rule s s' Hin HP [_ _ _]. simpl.
  rewrite lookup_insert_ne; [done|]. by apply Hk.
Qed.

Lemma check_condition_ext (c : condition) (fs fs' : gmap string value) :
  fs !! c.1.1 = fs' !! c.1.1 → check_condition c fs = check_condition c fs'.
Proof. destruct c as [[key op] v]. simpl. by intros ->. Qed.

Lemma all_conditions_ext (conds : list condition) (fs fs' : gmap string value) :
  (∀ c, c ∈ conds → fs !! c.1.1 = fs' !! c.1.1) →
  all_conditions conds fs = all_conditions conds fs'.
Proof.
  induction conds as [|c conds IH]; simpl; intros H; [done|].
  rewrite (check_condition_ext c fs fs') by (apply H; left).
  rewrite IH; [done|]. intros c' Hc'. apply H. by right.
Qed.

Lemma eligible_ext (r : InferenceRule) (fs fs' : gmap string value) :
  (∀ k, k ∈ rule_keys r → fs !! k = fs' !! k) → eligible r fs → eligible r fs'.
Proof.
  unfold eligible, rule_keys, differs. intros H [Hc Hd]. split.
  - rewrite <- Hc. symmetry. apply all_conditions_ext.
    intros c Hc'. apply H. right. by apply (list_elem_of_fmap_2 (λ c : condition, c.1.1)).
  - rewrite <- (H (conclusion r).1); [done|left].
Qed.

Lemma eligible_fires (r : InferenceRule) (st : state) :
  identifier r ∉ triggered_rules st → eligible r (facts st) →
  rule_body r st = Returned
    {| facts := apply_conclusion (facts st) r;
       triggered_rules := triggered_rules st ++ [identifier r];
       new_fact_added := true |}.
Proof. intros Hid [Hc Hd]. apply rule_body_fires. by constructor. Qed.

Lemma sorted_split (rs : list InferenceRule) (r1 r2 : InferenceRule) :
  StronglySorted (λ a b, (priority b ≤ priority a)%Z) rs →
  r1 ∈ rs → r2 ∈ rs → (priority r2 < priority r1)%Z →
  ∃ s1 s2 s3, rs = s1 ++ r1 :: s2 ++ r2 :: s3.
Proof.
  intros Hs (s1 & t & ->)%list_elem_of_split H2 Hlt.
  apply elem_of_app in H2 as [H2|H2].
  - pose proof (StronglySorted_app_1_elem_of _ _ _ r2 r1 Hs H2 ltac:(left)) as H.
    simpl in H. lia.
  - apply elem_of_cons in H2 as [->|H2]; [lia|].
    apply list_elem_of_split in H2 as (s2 & s3 & ->). eauto.
Qed.

Lemma evaluated_before_split (s1 s2 : list InferenceRule) (r r' : InferenceRule) :
  r ∈ s1 → evaluated_before (s1 ++ r' :: s2) r r'.
Proof.
  intros [i Hi]%list_elem_of_lookup. exists i, (length s1). split_and!.
  - by apply lookup_app_l_Some.
  - by apply list_lookup_middle.
  - by apply lookup_lt_Some in Hi.
Qed.

(** Within one pass that starts with an empty firing record: two eligible
    rules with no key in common fire in rule-list order, when the rules
    that stand before the first conclude on no key of it and the rules that
    stand before the second conclude on no key of that one. *)
Lemma first_pass_order (s1 s2 s3 : list InferenceRule) (r1 r2 : InferenceRule)
    (st0 stA : state) :
  NoDup (identifier <$> s1 ++ r1 :: s2 ++ r2 :: s3) →
  rule_keys r1 ## rule_keys r2 →
  (∀ r, r ∈ s1 → (conclusion r).1 ∉ rule_keys r1) →
  (∀ r, r ∈ s1 ++ s2 → (conclusion r).1 ∉ rule_keys r2) →
  triggered_rules st0 = [] →
  eligible r1 (facts st0) → eligible r2 (facts st0) →
  for_rules (s1 ++ r1 :: s2 ++ r2 :: s3) st0 = Returned stA →
  ∃ l1 l2 l3,
    triggered_rules stA = l1 ++ identifier r1 :: l2 ++ identifier r2 :: l3.
Proof.
  intros Hnd Hdisj Hbefore1 Hbefore2 Hempty He1 He2.
  rewrite fmap_app, fmap_cons, fmap_app, fmap_cons in Hnd.
  apply NoDup_app in Hnd as (_ & Hs1 & Hnd).
  apply NoDup_cons in Hnd as [Hr1 Hnd].
  apply NoDup_app in Hnd as (_ & Hs2 & _).
  rewrite for_rules_app.
  destruct (for_rules s1 st0) as [sta|] eqn:Ea; simpl; [|discriminate].
  (* up to r1 *)
  assert (∀ k, k ∈ rule_keys r1 ++ rule_keys r2 → facts st0 !! k = facts sta !! k)
    as Hka.
  { intros k Hk. symmetry. eapply for_rules_facts_frame; [|exact Ea].
    intros r Hr <-. apply elem_of_app in Hk as [Hk|Hk].
    - by apply (Hbefore1 r).
    - apply (Hbefore2 r); [|done]. apply elem_of_app. by left. }
  assert (∀ id, id ∈ triggered_rules sta → id ∈ identifier <$> s1) as Hta.
  { intros id Hid. destruct (for_rules_triggered_origin _ _ _ _ Ea Hid) as [H|H]; [|done].
    rewrite Hempty in H. by apply elem_of_nil in H. }
  rewrite (eligible_fires r1 sta); simpl.
  2:{ intros Hin%Hta. apply (Hs1 _ Hin). left. }
  2:{ eapply eligible_ext; [|exact He1]. intros k Hk. apply Hka, elem_of_app. by left. }
  rewrite for_rules_app.
  set (stb := {| facts := apply_conclusion (facts sta) r1 |}).
  destruct (for_rules s2 stb) as [stc|] eqn:Ec; simpl; [|discriminate].
  destruct (for_rules_prefix _ _ _ Ec) as [l2 Hl2]. simpl in Hl2.
  (* up to r2 *)
  assert (∀ k, k ∈ rule_keys r2 → facts st0 !! k = facts stc !! k) as Hkc.
  { intros k Hk. rewrite (for_rules_facts_frame s2 stb stc k); [| |exact Ec].
    - simpl. unfold apply_conclusion. rewrite lookup_insert_ne.
      + apply Hka, elem_of_app. by right.
      + intros <-. apply (Hdisj (conclusion r1).1); [left|done].
    - intros r Hr <-. apply (Hbefore2 r); [|done]. apply elem_of_app. by right. }
  rewrite (eligible_fires r2 stc); simpl.
  2:{ intros Hin. destruct (for_rules_triggered_origin _ _ _ _ Ec Hin) as [H|H].
      - simpl in H. apply elem_of_app in H as [H%Hta|H%list_elem_of_singleton].
        + apply (Hs1 _ H). right. apply elem_of_app. right. left.
        + apply Hr1. rewrite <- H. apply elem_of_app. right. left.
      - apply (Hs2 _ H). left. }
  2:{ eapply eligible_ext; [|exact He2]. done. }
  intros Hd. destruct (for_rules_prefix _ _ _ Hd) as [l3 Hl3]. simpl in Hl3.
  exists (triggered_rules sta), l2, l3.
  rewrite Hl3, Hl2. by rewrite <- !app_assoc.
Qed.

Lemma run_first_pass (fuel : nat) (self : t) (initial_facts final : gmap string value)
    (fired : list string) (n : nat) :
  run fuel self initial_facts = Some (Returned (final, fired), n) →
  ∃ stA ext,
    for_rules (rules self)
      {| facts := initial_facts; triggered_rules := []; new_fact_added := false |}
      = Returned stA
    ∧ fired = triggered_rules stA ++ ext.
Proof.
  unfold run. destruct fuel as [|fuel]; simpl; [discriminate|]. unfold pass. simpl.
  destruct (for_rules _ _) as [stA|e]; [|discriminate].
  destruct (while_loop fuel _ stA 1) as [[[st|e] m]|] eqn:Hw; [|discriminate..].
  intros [= <- <- _]. destruct (while_loop_prefix _ _ _ _ _ _ Hw) as [ext Hext].
  eauto.
Qed.

(** C7, at the failing input: Q1 (priority 2) and Q2 (priority 1) have no
    key in common and are both eligible on the initial facts, and Q2 is
    recorded before Q1, because Q0 has overwritten the fact that Q1 tests
    by the time the first pass reaches Q1. *)
Lemma priority_order_disturbed :
  let initial_facts : gmap string value :=
    {["a" := VInt 1; "x" := VInt 1; "z" := VInt 1]} in
  rule_keys rule_Q1 ## rule_keys rule_Q2
  ∧ (priority rule_Q2 < priority rule_Q1)%Z
  ∧ eligible rule_Q1 initial_facts
  ∧ eligible rule_Q2 initial_facts
  ∧ ∃ final fired n,
      run 5 (__init__ [rule_Q0; rule_Q1; rule_Q2; rule_Q3]) initial_facts
        = Some (Returned (final, fired), n)
      ∧ ¬ precedes (identifier rule_Q1) (identifier rule_Q2) fired.
Proof.
  split_and!.
  - intros k Hk1 Hk2. unfold rule_keys in Hk1, Hk2. simpl in Hk1, Hk2.
    rewrite !elem_of_cons, elem_of_nil in Hk1, Hk2.
    destruct Hk1 as [->|[->|[]]]; destruct Hk2 as [?|[?|[]]]; discriminate.
  - reflexivity.
  - split; vm_compute; reflexivity.
  - split; vm_compute; reflexivity.
  - eexists _, ["Q0"; "Q2"; "Q3"; "Q1"], _. split; [vm_compute; reflexivity|].
    intros (i & j & Hi & Hj & Hlt).
    destruct i as [|[|[|[|i]]]]; simpl in Hi; try discriminate.
    destruct j as [|[|[|[|j]]]]; simpl in Hj; try discriminate; lia.
Qed.

(** C7 (amended): take a rule set with unique identifiers and in it two
    rules of different priorities that have no condition or conclusion key
    in common and are both eligible on the initial facts (conditions true,
    conclusion differs); if no other rule that is evaluated before one of
    the two, standing before it in the rule list sorted by priority,
    concludes on a key of that one, then in the firing record returned by
    [run] the identifier of the rule of higher priority stands before that
    of the rule of lower priority. *)
Theorem run_priority_order (fuel : nat) (rs : list InferenceRule)
    (r1 r2 : InferenceRule) (initial_facts final : gmap string value)
    (fired : list string) (n : nat) :
  NoDup (identifier <$> rs) →
  r1 ∈ rs → r2 ∈ rs →
  (priority r2 < priority r1)%Z →
  rule_keys r1 ## rule_keys r2 →
  (∀ r r', r' ∈ [r1; r2] → r ≠ r1 → r ≠ r2 →
     evaluated_before (rules (__init__ rs)) r r' →
     (conclusion r).1 ∉ rule_keys r') →
  eligible r1 initial_facts → eligible r2 initial_facts →
  run fuel (__init__ rs) initial_facts = Some (Returned (final, fired), n) →
  precedes (identifier r1) (identifier r2) fired.
Proof.
  intros Hnd H1 H2 Hlt Hdisj Hothers He1 He2 Hrun.
  pose proof (sorted_by_priority_desc_Permutation rs) as Hperm.
  destruct (sorted_split (sorted_by_priority_desc rs) r1 r2)
    as (s1 & s2 & s3 & Hsplit);
    [apply sorted_by_priority_desc_sorted|by rewrite Hperm..|done|].
  apply run_first_pass in Hrun as (stA & ext & Hpass & ->). simpl in Hpass, Hothers.
  rewrite Hsplit in Hpass, Hperm, Hothers.
  assert (NoDup (identifier <$> s1 ++ r1 :: s2 ++ r2 :: s3)) as Hnd'
    by (by rewrite Hperm).
  pose proof (NoDup_fmap_1 _ _ Hnd') as Hnd2.
  apply NoDup_app in Hnd2 as (_ & Hs1 & Hnd2).
  apply NoDup_cons in Hnd2 as [Hr1 Hnd2].
  apply NoDup_app in Hnd2 as (_ & Hs2 & _).
  assert (∀ r, r ∈ s1 → r ≠ r1 ∧ r ≠ r2) as Hne1.
  { intros r Hr. split; intros ->.
    - apply (Hs1 _ Hr). left.
    - apply (Hs1 _ Hr). right. apply elem_of_app. right. left. }
  assert (∀ r, r ∈ s2 → r ≠ r1 ∧ r ≠ r2) as Hne2.
  { intros r Hr. split; intros ->.
    - apply Hr1, elem_of_app. by left.
    - apply (Hs2 _ Hr). left. }
  apply first_pass_order in Hpass as (l1 & l2 & l3 & Ht); [|done|done| | |done..].
  2:{ intros r Hr. destruct (Hne1 r Hr). apply (Hothers r r1); [left|done..|].
      by apply evaluated_before_split. }
  2:{ intros r Hr. apply (Hothers r r2); [right; left|..].
      - apply elem_of_app in Hr as [Hr|Hr]; [by apply Hne1|by apply Hne2].
      - apply elem_of_app in Hr as [Hr|Hr]; [by apply Hne1|by apply Hne2].
      - replace (s1 ++ r1 :: s2 ++ r2 :: s3) with ((s1 ++ r1 :: s2) ++ r2 :: s3)
          by (by rewrite <- app_assoc).
        apply evaluated_before_split.
        rewrite elem_of_app, elem_of_cons. rewrite elem_of_app in Hr. tauto. }
  exists (length l1), (length l1 + S (length l2)). rewrite Ht. split_and!; [| |lia].
  - rewrite <- app_assoc. by apply list_lookup_middle.
  - replace ((l1 ++ identifier r1 :: l2 ++ identifier r2 :: l3) ++ ext)
      with ((l1 ++ identifier r1 :: l2) ++ identifier r2 :: (l3 ++ ext))
      by (repeat (rewrite <- app_assoc; simpl); reflexivity).
    apply list_lookup_middle. rewrite length_app. simpl. lia.
Qed.

Lemma run_priority_order_witness :
  run 5 (__init__ [rule_Q3; rule_Q2; rule_Q1]) {["x" := VInt 1; "z" := VInt 1]}
    = Some (Returned (<["w" := VInt 1]> (<["y" := VInt 1]>
                        {["x" := VInt 1; "z" := VInt 1]}), ["Q1"; "Q2"]), 2)
  ∧ precedes "Q1" "Q2" ["Q1"; "Q2"].
Proof.
  assert (run 5 (__init__ [rule_Q3; rule_Q2; rule_Q1]) {["x" := VInt 1; "z" := VInt 1]}
    = Some (Returned (<["w" := VInt 1]> (<["y" := VInt 1]>
                        {["x" := VInt 1; "z" := VInt 1]}), ["Q1"; "Q2"]), 2)) as Hrun
    by (vm_compute; reflexivity).
  split; [exact Hrun|].
  eapply (run_priority_order 5 [rule_Q3; rule_Q2; rule_Q1] rule_Q1 rule_Q2); [..|exact Hrun].
  - apply (bool_decide_unpack _). vm_compute. exact I.
  - do 3 constructor.
  - do 2 constructor.
  - reflexivity.
  - intros k Hk1 Hk2. unfold rule_keys in Hk1, Hk2. simpl in Hk1, Hk2.
    rewrite !elem_of_cons, elem_of_nil in Hk1, Hk2.
    destruct Hk1 as [->|[->|[]]]; destruct Hk2 as [?|[?|[]]]; discriminate.
  - intros r r' Hr' Hn1 Hn2 (i & j & Hi & Hj & Hlt).
    change (rules (__init__ [rule_Q3; rule_Q2; rule_Q1]))
      with [rule_Q1; rule_Q2; rule_Q3] in Hi, Hj.
    rewrite !elem_of_cons, elem_of_nil in Hr'.
    destruct j as [|[|[|j]]]; simpl in Hj; try discriminate;
      injection Hj as <-;
      destruct i as [|[|[|i]]]; simpl in Hi; try discriminate; try lia;
      injection Hi as <-; try done;
      destruct Hr' as [Hr'|[Hr'|[]]]; discriminate Hr'.
  - split; vm_compute; reflexivity.
  - split; vm_compute; reflexivity.
Defined.

(** ** The exported graph *)



Lemma condition_keys_foldl (conds : list condition) (acc : gset string) (k : string) :
  k ∈ foldl (λ fks (c : condition), fks ∪ {[ c.1.1 ]}) acc conds
  ↔ k ∈ acc ∨ k ∈ (λ c : condition, c.1.1) <$> conds.
Proof.
  revert acc. induction conds as [|c conds IH]; simpl; intros acc.
  - rewrite elem_of_nil. tauto.
  - rewrite IH, elem_of_union, elem_of_singleton, elem_of_cons. tauto.
Qed.

Lemma collect_fact_keys_foldl (rules : list InferenceRule) (acc : gset string)
    (k : string) :
  k ∈ foldl (λ fact_keys r,
       foldl (λ fks (c : condition), fks ∪ {[ c.1.1 ]}) fact_keys (conditions r)
         ∪ {[ (conclusion r).1 ]}) acc rules
  ↔ k ∈ acc ∨ ∃ r, r ∈ rules ∧ k ∈ rule_keys r.
Proof.
  revert acc. induction rules as [|r rules IH]; simpl; intros acc.
  - split; [auto|]. intros [?|(r & Hr & _)]; [done|]. by apply elem_of_nil in Hr.
  - rewrite IH, elem_of_union, elem_of_singleton, condition_keys_foldl.
    unfold rule_keys. split.
    + intros [[[?|?]| ->]|(r' & Hr' & Hk)]; auto.
      * right. exists r. split; [left|by right].
      * right. exists r. split; left.
      * right. exists r'. split; [by right|done].
    + intros [?|(r' & [->|Hr']%elem_of_cons & Hk)]; auto.
      * apply elem_of_cons in Hk as [->|Hk]; auto.
      * right. eauto.
Qed.

Lemma collect_fact_keys_spec (rules : list InferenceRule) (k : string) :
  k ∈ collect_fact_keys rules ↔ ∃ r, r ∈ rules ∧ k ∈ rule_keys r.
Proof.
  unfold collect_fact_keys. rewrite collect_fact_keys_foldl.
  split; [|auto]. intros [H|H]; [|done]. by apply not_elem_of_empty in H.
Qed.

(** The reader of the text on the lines that the exporter writes. *)


























(** * Further properties of the code *)

(** ** The six operators *)

Lemma check_condition_lookup (key operator : string) (v cur : value)
    (fs : gmap string value) :
  fs !! key = Some cur →
  check_condition (key, operator, v) fs
  = match ops operator with Some fn => fn cur v | None => Returned false end.
Proof. intros H. unfold check_condition. by rewrite H. Qed.

Lemma check_condition_ge_int (key : string) (x y : Z) (fs : gmap string value) :
  fs !! key = Some (VInt x) →
  check_condition (key, ">=", VInt y) fs = Returned (y <=? x)%Z.
Proof.
  intros H. rewrite (check_condition_lookup _ _ _ _ _ H).
  change (ops ">=") with (Some py_ge). unfold py_ge, py_cmp, bind.
  rewrite Z.leb_compare, (Z.compare_antisym x y). by destruct (x ?= y)%Z.
Qed.

(** X1: an equality test holds exactly when the store maps the key to the
    value tested; a test on a missing key is false. *)
Theorem check_condition_eq (key : string) (v : value) (fs : gmap string value) :
  check_condition (key, "==", v) fs = Returned (bool_decide (fs !! key = Some v)).
Proof.
  unfold check_condition. destruct (fs !! key) as [cur|]; simpl; [|done].
  f_equal. destruct (py_eq cur v) eqn:Heq.
  - apply py_eq_true in Heq as ->. by rewrite bool_decide_eq_true_2.
  - rewrite bool_decide_eq_false_2; [done|]. intros [= ->].
    assert (py_eq v v = true) by by apply py_eq_true. congruence.
Qed.

(** X2: an inequality test holds exactly when the key is present with another
    value: on a missing key it is false, like the equality test. *)
Theorem check_condition_ne (key : string) (v : value) (fs : gmap string value) :
  check_condition (key, "!=", v) fs
  = Returned (match fs !! key with
              | Some cur => bool_decide (cur ≠ v)
              | None => false
              end).
Proof.
  unfold check_condition. destruct (fs !! key) as [cur|]; simpl; [|done].
  f_equal. unfold py_ne. destruct (py_eq cur v) eqn:Heq; simpl.
  - apply py_eq_true in Heq as ->. by rewrite bool_decide_eq_false_2 by auto.
  - rewrite bool_decide_eq_true_2; [done|].
    intros ->. assert (py_eq v v = true) by by apply py_eq_true. congruence.
Qed.

(** X3: on an integer fact and an integer comparison value the four ordering
    operators decide the order of the integers. *)
Theorem check_condition_int_order (key : string) (x y : Z)
    (fs : gmap string value) :
  fs !! key = Some (VInt x) →
  check_condition (key, ">=", VInt y) fs = Returned (y <=? x)%Z
  ∧ check_condition (key, "<=", VInt y) fs = Returned (x <=? y)%Z
  ∧ check_condition (key, ">", VInt y) fs = Returned (y <? x)%Z
  ∧ check_condition (key, "<", VInt y) fs = Returned (x <? y)%Z.
Proof.
  intros H. rewrite !(check_condition_lookup _ _ _ _ _ H).
  change (ops ">=") with (Some py_ge). change (ops "<=") with (Some py_le).
  change (ops ">") with (Some py_gt). change (ops "<") with (Some py_lt).
  unfold py_ge, py_le, py_gt, py_lt, py_cmp, bind.
  rewrite !Z.leb_compare, !Z.ltb_compare, (Z.compare_antisym x y).
  by destruct (x ?= y)%Z.
Qed.

Lemma check_condition_int_order_witness :
  ({["risk_count" := VInt 4]} : gmap string value) !! "risk_count" = Some (VInt 4)
  ∧ check_condition ("risk_count", ">=", VInt 2) {["risk_count" := VInt 4]}
    = Returned true.
Proof.
  assert (({["risk_count" := VInt 4]} : gmap string value) !! "risk_count"
          = Some (VInt 4)) as H by (vm_compute; reflexivity).
  split; [exact H|].
  exact (proj1 (check_condition_int_order "risk_count" 4 2 _ H)).
Defined.

(** ** The conjunction of the conditions of a rule *)

(** X4: the conditions of a rule hold exactly when each of them holds: their
    order does not matter for that. *)
Theorem all_conditions_true (conds : list condition) (fs : gmap string value) :
  all_conditions conds fs = Returned true
  ↔ Forall (λ c, check_condition c fs = Returned true) conds.
Proof.
  induction conds as [|c conds IH]; simpl; [by split|].
  rewrite Forall_cons, <- IH.
  destruct (check_condition c fs) as [[|]|e]; simpl; split; try done;
    intros [? ?]; done.
Qed.

(** X5: the first condition that does not hold decides: its outcome, false or
    an exception, is the outcome of the conjunction, and the conditions
    after it are not evaluated (an exception they would raise is not
    raised). *)
Theorem all_conditions_first (pre post : list condition) (c : condition)
    (fs : gmap string value) :
  Forall (λ c, check_condition c fs = Returned true) pre →
  check_condition c fs ≠ Returned true →
  all_conditions (pre ++ c :: post) fs = check_condition c fs.
Proof.
  induction 1 as [|c0 pre Hc0 _ IH]; simpl; intros Hc.
  - destruct (check_condition c fs) as [[|]|e]; done.
  - rewrite Hc0. simpl. by apply IH.
Qed.

Lemma all_conditions_first_witness :
  all_conditions [("a", "==", VInt 1); ("b", "==", VInt 1); ("a", "<", VStr "z")]
    {["a" := VInt 1]}
  = Returned false.
Proof.
  rewrite (all_conditions_first [("a", "==", VInt 1)] [("a", "<", VStr "z")]
             ("b", "==", VInt 1) {["a" := VInt 1]}).
  - vm_compute. reflexivity.
  - repeat constructor.
  - vm_compute. discriminate.
Defined.

(** ** The result of a run is at rest *)

Lemma differs_false (fs : gmap string value) (k : string) (v : value) :
  differs fs k v = false ↔ fs !! k = Some v.
Proof.
  split; [|apply differs_same]. unfold differs.
  destruct (fs !! k) as [cur|]; [|done]. by intros ->%py_ne_false.
Qed.

Lemma rule_body_unchanged (rule : InferenceRule) (st : state) :
  rule_body rule st = Returned st ↔
  identifier rule ∈ triggered_rules st ∨ at_rest rule (facts st).
Proof.
  unfold rule_body, at_rest. case_bool_decide as Hin; [by split; auto|].
  destruct (all_conditions _ _) as [[|]|e]; simpl.
  - destruct (conclusion rule) as [k v]. simpl.
    destruct (differs (facts st) k v) eqn:Hd.
    + split.
      * intros [= Heq]. apply (f_equal triggered_rules) in Heq. simpl in Heq.
        apply (f_equal length) in Heq. rewrite length_app in Heq. simpl in Heq. lia.
      * intros [?|[?|[_ Hk%differs_false]]]; [done|done|congruence].
    + apply differs_false in Hd. split; auto.
  - split; auto.
  - split; [done|]. intros [?|[?|[? _]]]; done.
Qed.

(** A pass that leaves the flag unset has changed nothing, and every rule
    was passed over. *)
Lemma for_rules_quiet (rs : list InferenceRule) (st st' : state) :
  for_rules rs st = Returned st' → new_fact_added st' = false →
  st' = st ∧ ∀ r, r ∈ rs → rule_body r st = Returned st.
Proof.
  revert st. induction rs as [|r rs IH]; simpl; intros st.
  - intros [= <-] _. split; [done|]. by intros r ?%elem_of_nil.
  - destruct (rule_body r st) as [st1|e] eqn:Hb; simpl; [|done].
    intros Hfor Hflag. destruct (IH _ Hfor Hflag) as [-> Hall].
    destruct (rule_body_Returned _ _ _ Hb) as [->|Hf].
    + split; [done|]. intros r' [->|?]%elem_of_cons; auto.
    + destruct Hf. simpl in Hflag. done.
Qed.

Lemma for_rules_unchanged (rs : list InferenceRule) (st : state) :
  (∀ r, r ∈ rs → rule_body r st = Returned st) → for_rules rs st = Returned st.
Proof.
  induction rs as [|r rs IH]; simpl; intros H; [done|].
  rewrite H by left. simpl. apply IH. intros r' Hr'. apply H. by right.
Qed.

(** A loop that was entered ends on a pass that changed nothing. *)
Lemma while_loop_last_pass (fuel : nat) (rs : list InferenceRule)
    (st st' : state) (p n : nat) :
  while_loop fuel rs st p = Some (Returned st', n) →
  new_fact_added st = true →
  new_fact_added st' = false ∧ for_rules rs st' = Returned st'.
Proof.
  revert st p. induction fuel as [|fuel IH]; simpl; intros st p.
  - destruct (new_fact_added st); done.
  - destruct (new_fact_added st) eqn:Hflag; [|done].
    destruct (pass rs st) as [st1|e] eqn:Hp; [|done]. intros Hw _.
    destruct (new_fact_added st1) eqn:Hflag1; [by apply (IH st1 (S p))|].
    assert (st' = st1) as ->.
    { destruct fuel; simpl in Hw; rewrite Hflag1 in Hw; congruence. }
    split; [done|]. unfold pass in Hp.
    destruct (for_rules_quiet _ _ _ Hp Hflag1) as [Heq Hall].
    rewrite Heq. apply for_rules_unchanged. exact Hall.
Qed.

(** X6: the facts returned by [run] are a fixed point of the rule set: every
    rule whose identifier is not in the firing record is at rest on them,
    its conditions false or its conclusion already there. *)
Theorem run_quiescent (fuel : nat) (self : t)
    (initial_facts final : gmap string value) (fired : list string) (n : nat)
    (r : InferenceRule) :
  run fuel self initial_facts = Some (Returned (final, fired), n) →
  r ∈ rules self → identifier r ∉ fired → at_rest r final.
Proof.
  unfold run.
  destruct (while_loop _ _ _ _) as [[[st|e] m]|] eqn:Hw; [|done..].
  intros [= <- <- _] Hr Hid.
  apply while_loop_last_pass in Hw as [Hflag Hfor]; [|done].
  destruct (for_rules_quiet _ _ _ Hfor Hflag) as [_ Hall].
  specialize (Hall r Hr). apply rule_body_unchanged in Hall as [?|?]; done.
Qed.

Lemma run_quiescent_witness :
  at_rest rule_R1 {["a" := VInt 1; "b" := VInt 1; "c" := VInt 1]}.
Proof.
  apply (run_quiescent 5 (__init__ [rule_R1; rule_R2]) {["a" := VInt 1; "b" := VInt 1]}
           _ ["R2"] 2 rule_R1).
  - vm_compute. reflexivity.
  - constructor.
  - apply (bool_decide_unpack _). vm_compute. exact I.
Defined.

(** X7: facts on which every rule is at rest are returned as they are, with an
    empty firing record, after a single pass; the empty rule set is the
    special case without rules. *)
Theorem run_at_rest (fuel : nat) (self : t) (initial_facts : gmap string value) :
  (∀ r, r ∈ rules self → at_rest r initial_facts) →
  run (S fuel) self initial_facts = Some (Returned (initial_facts, []), 1).
Proof.
  intros Hrest. unfold run. simpl. unfold pass. simpl.
  rewrite for_rules_unchanged.
  - destruct fuel; reflexivity.
  - intros r Hr. apply rule_body_unchanged. right. by apply Hrest.
Qed.

Lemma run_at_rest_witness :
  run 1 (__init__ [rule_R1; rule_R2]) {["x" := VInt 1]}
  = Some (Returned ({["x" := VInt 1]}, []), 1).
Proof.
  apply (run_at_rest 0 (__init__ [rule_R1; rule_R2]) {["x" := VInt 1]}).
  intros r Hr. left. vm_compute in Hr.
  apply elem_of_cons in Hr as [->|Hr]; [vm_compute; reflexivity|].
  apply list_elem_of_singleton in Hr as ->. vm_compute. reflexivity.
Defined.

(** ** Passes and firings *)

Lemma while_loop_passes (fuel : nat) (rs : list InferenceRule)
    (st st' : state) (p n : nat) :
  while_loop fuel rs st p = Some (Returned st', n) →
  new_fact_added st = true →
  S p ≤ n
  ∧ n + length (triggered_rules st) ≤ S p + length (triggered_rules st')
  ∧ (n = S p → triggered_rules st' = triggered_rules st).
Proof.
  revert st p. induction fuel as [|fuel IH]; simpl; intros st p.
  - destruct (new_fact_added st); done.
  - destruct (new_fact_added st) eqn:Hflag; [|done].
    destruct (pass rs st) as [st1|e] eqn:Hp; [|done]. intros Hw _.
    destruct (for_rules_progress _ _ _ Hp) as [Hle Hlt]. simpl in Hle, Hlt.
    destruct (new_fact_added st1) eqn:Hflag1.
    + destruct (IH _ _ Hw Hflag1) as (Hn & Hlen & _).
      destruct (Hlt eq_refl) as [?|Hlt']; [done|]. split_and!; lia.
    + assert (st' = st1) as ->.
      { destruct fuel; simpl in Hw; rewrite Hflag1 in Hw; congruence. }
      assert (n = S p) as ->.
      { destruct fuel; simpl in Hw; rewrite Hflag1 in Hw; congruence. }
      destruct (for_rules_quiet _ _ _ Hp Hflag1) as [-> _]. simpl.
      split_and!; [lia..|done].
Qed.

(** X8: the loop executes at least one pass and at most one pass more than
    rules were fired, and exactly one pass when none was fired. *)
Theorem run_passes (fuel : nat) (self : t)
    (initial_facts final : gmap string value) (fired : list string) (n : nat) :
  run fuel self initial_facts = Some (Returned (final, fired), n) →
  1 ≤ n ≤ length fired + 1 ∧ (n = 1 ↔ fired = []).
Proof.
  unfold run.
  destruct (while_loop _ _ _ _) as [[[st|e] m]|] eqn:Hw; [|done..].
  intros [= <- <- <-].
  apply while_loop_passes in Hw as (Hn & Hlen & Hone); [|done]. simpl in *.
  split; [lia|]. split; [auto|]. intros Hnil. rewrite Hnil in Hlen. simpl in Hlen. lia.
Qed.

Lemma run_passes_witness : 1 ≤ 2 ≤ length ["R1"; "R2"] + 1.
Proof.
  apply (run_passes 5 (__init__ [rule_R2; rule_R1]) {["a" := VInt 1]}
           (<["c" := VInt 1]> (<["b" := VInt 1]> {["a" := VInt 1]})) ["R1"; "R2"] 2).
  vm_compute. reflexivity.
Defined.

(** ** Configurations that cannot raise *)

Lemma same_kind_is_int (a b : value) : is_int a = is_int b → same_kind a b.
Proof. destruct a, b; simpl; done. Qed.

Lemma check_condition_typed (ty : string → bool) (c : condition)
    (fs : gmap string value) :
  well_typed ty fs →
  (c.1.2 ∈ [">="; "<="; ">"; "<"] → is_int c.2 = ty c.1.1) →
  ∃ b : bool, check_condition c fs = Returned b.
Proof.
  destruct c as [[key op] v]. simpl. intros Hfs Hc.
  destruct (fs !! key) as [cur|] eqn:Hk; [|eauto].
  destruct (decide (op ∈ ["=="; "!="; ">="; "<="; ">"; "<"])) as [Hin|Hout];
    [|rewrite (ops_supported _ Hout); eauto].
  rewrite !elem_of_cons, elem_of_nil in Hin.
  destruct Hin as [->|[->|Hord]]; simpl; eauto.
  assert (op ∈ [">="; "<="; ">"; "<"]) as Hord'
    by (rewrite !elem_of_cons, elem_of_nil; exact Hord).
  destruct (ops_ordering op Hord') as [f ->].
  destruct (py_cmp_same_kind cur v) as [cmp ->]; [|simpl; eauto].
  apply same_kind_is_int. rewrite (Hfs _ _ Hk). symmetry. by apply Hc.
Qed.

Lemma all_conditions_typed (ty : string → bool) (conds : list condition)
    (fs : gmap string value) :
  well_typed ty fs →
  (∀ c : condition, c ∈ conds →
     c.1.2 ∈ [">="; "<="; ">"; "<"] → is_int c.2 = ty c.1.1) →
  ∃ b : bool, all_conditions conds fs = Returned b.
Proof.
  intros Hfs. induction conds as [|c conds IH]; simpl; intros Hc; [eauto|].
  destruct (check_condition_typed ty c fs Hfs) as [[|] ->]; simpl; eauto.
  - apply Hc. left.
  - apply IH. intros c' Hc'. apply Hc. by right.
Qed.

Section no_raise.
Variable rs : list InferenceRule.
Variable Inv : state → Prop.
Hypothesis Inv_fires : ∀ rule st st',
  rule ∈ rs → Inv st → fires rule st st' → Inv st'.
Hypothesis Inv_reset : ∀ st,
  Inv st → Inv {| facts := facts st; triggered_rules := triggered_rules st;
                  new_fact_added := false |}.
Hypothesis Inv_conditions : ∀ rule st,
  rule ∈ rs → Inv st → ∃ b : bool, all_conditions (conditions rule) (facts st) = Returned b.

Lemma rule_body_returns (rule : InferenceRule) (st : state) :
  rule ∈ rs → Inv st → ∃ st', rule_body rule st = Returned st'.
Proof.
  intros Hin HI. unfold rule_body. case_bool_decide; [eauto|].
  destruct (Inv_conditions rule st Hin HI) as [[|] ->]; simpl; [|eauto].
  destruct (conclusion rule) as [k v]. destruct (differs _ k v); eauto.
Qed.

Lemma for_rules_returns (rs' : list InferenceRule) (st : state) :
  rs' ⊆ rs → Inv st → ∃ st', for_rules rs' st = Returned st'.
Proof.
  revert st. induction rs' as [|rule rs' IH]; simpl; intros st Hsub HI; [eauto|].
  assert (rule ∈ rs) as Hin by (apply Hsub; left).
  destruct (rule_body_returns rule st Hin HI) as [st1 Hb]. rewrite Hb. simpl.
  apply IH; [intros x Hx; apply Hsub; by right|].
  destruct (rule_body_Returned _ _ _ Hb) as [->|Hf]; [done|].
  by apply (Inv_fires rule st).
Qed.

Lemma while_loop_returns (fuel : nat) (st : state) (p n : nat)
    (r : outcome state) :
  Inv st → while_loop fuel rs st p = Some (r, n) →
  ∃ st', r = Returned st' ∧ Inv st'.
Proof.
  revert st p. induction fuel as [|fuel IH]; simpl; intros st p HI.
  - destruct (new_fact_added st); [done|]. intros [= <- _]. eauto.
  - destruct (new_fact_added st); [|intros [= <- _]; eauto].
    unfold pass.
    destruct (for_rules_returns rs _ (reflexivity rs) (Inv_reset st HI)) as [st1 Hp].
    rewrite Hp. apply IH.
    by apply (for_rules_invariant rs Inv Inv_fires rs _ st1 (reflexivity rs)
                (Inv_reset st HI)).
Qed.
End no_raise.

(** X9: type soundness: when each key has a kind (integer or text), the
    initial facts respect it, every rule concludes a value of the kind of
    its conclusion key and orders a key only against values of its kind,
    then the run raises no TypeError: it returns, and the final facts
    respect the kinds too. *)
Theorem run_well_typed (ty : string → bool) (fuel : nat) (self : t)
    (initial_facts : gmap string value) :
  well_typed ty initial_facts →
  (∀ r, r ∈ rules self → rule_typed ty r) →
  length (rules self) < fuel →
  ∃ final fired n,
    run fuel self initial_facts = Some (Returned (final, fired), n)
    ∧ well_typed ty final.
Proof.
  intros Hinit Hrules Hfuel.
  destruct (run_enough_fuel fuel self initial_facts Hfuel) as (r & n & Hrun & _).
  revert Hrun. unfold run.
  destruct (while_loop _ _ _ _) as [[r0 m]|] eqn:Hw; [|done].
  apply (while_loop_returns (rules self) (λ st, well_typed ty (facts st)))
    in Hw as (st' & -> & Hst'); simpl; auto.
  - intros _. eauto.
  - intros rule st st1 Hin Hst [_ _ _]. simpl. intros k v.
    destruct (decide ((conclusion rule).1 = k)) as [<-|Hne].
    + rewrite lookup_insert_eq. intros [= <-]. by apply Hrules.
    + rewrite lookup_insert_ne by done. apply Hst.
  - intros rule st Hin Hst. apply (all_conditions_typed ty); [done|].
    by apply Hrules.
Qed.

Lemma run_well_typed_witness :
  ∃ final fired n,
    run 3 (__init__ [rule_R1; rule_R2]) {["a" := VInt 1]}
      = Some (Returned (final, fired), n).
Proof.
  destruct (run_well_typed (λ _, true) 3 (__init__ [rule_R1; rule_R2])
              {["a" := VInt 1]}) as (final & fired & n & Hrun & _).
  - change (map_Forall (λ (_ : string) v, is_int v = true)
              ({["a" := VInt 1]} : gmap string value)).
    apply (bool_decide_unpack _). vm_compute. exact I.
  - intros r Hr. vm_compute in Hr.
    apply elem_of_cons in Hr as [->|Hr];
      [|apply list_elem_of_singleton in Hr as ->];
      (split; [reflexivity|]); intros c Hc%list_elem_of_singleton _;
      rewrite Hc; reflexivity.
  - vm_compute. lia.
  - eauto.
Defined.

(** ** Facts that the rules cannot tell apart *)

Section simulation.
Variable rs : list InferenceRule.
Variable K : list string.
Variables fs fs' : gmap string value.
Hypothesis K_not_concluded : ∀ r, r ∈ rs → (conclusion r).1 ∉ K.
Hypothesis K_same_checks : ∀ r (c : condition),
  r ∈ rs → c ∈ conditions r → c.1.1 ∈ K →
  check_condition c fs = check_condition c fs'.

Lemma sim_check_condition (r : InferenceRule) (c : condition) (st st' : state) :
  sim K fs fs' st st' → r ∈ rs → c ∈ conditions r →
  check_condition c (facts st) = check_condition c (facts st').
Proof.
  intros (_ & _ & Hoff & Hon) Hr Hc.
  destruct (decide (c.1.1 ∈ K)) as [HK|HK].
  - rewrite (check_condition_ext c (facts st) fs) by apply Hon, HK.
    rewrite (check_condition_ext c (facts st') fs') by apply Hon, HK.
    by apply (K_same_checks r).
  - apply check_condition_ext. by apply Hoff.
Qed.

Lemma sim_all_conditions (r : InferenceRule) (conds : list condition)
    (st st' : state) :
  sim K fs fs' st st' → r ∈ rs → conds ⊆ conditions r →
  all_conditions conds (facts st) = all_conditions conds (facts st').
Proof.
  intros Hsim Hr. induction conds as [|c conds IH]; simpl; intros Hsub; [done|].
  rewrite (sim_check_condition r c st st') by (try done; apply Hsub; left).
  rewrite IH; [done|]. intros x Hx. apply Hsub. by right.
Qed.

Lemma sim_rule_body (r : InferenceRule) (st st' : state) :
  sim K fs fs' st st' → r ∈ rs →
  match rule_body r st, rule_body r st' with
  | Returned s, Returned s' => sim K fs fs' s s'
  | Raised e, Raised e' => e = e'
  | _, _ => False
  end.
Proof.
  intros Hsim Hr. pose proof Hsim as (Ht & Hflag & Hoff & Hon).
  unfold rule_body. rewrite <- Ht.
  rewrite <- (sim_all_conditions r (conditions r) st st') by done.
  case_bool_decide; [done|].
  destruct (all_conditions _ (facts st)) as [[|]|e]; simpl; [|done..].
  destruct (conclusion r) as [k v] eqn:Hc.
  assert (k ∉ K) as Hk.
  { pose proof (K_not_concluded r Hr) as HKr. by rewrite Hc in HKr. }
  unfold differs. rewrite <- (Hoff k Hk).
  destruct (match facts st !! k with Some cur => py_ne cur v | None => true end);
    [|done].
  split_and!; simpl; [by rewrite Ht|done| |].
  - intros k0 Hk0. destruct (decide (k = k0)) as [->|Hne].
    + by rewrite !lookup_insert_eq.
    + rewrite !lookup_insert_ne by done. by apply Hoff.
  - intros k0 Hk0. rewrite !lookup_insert_ne by (intros ->; done). by apply Hon.
Qed.

Lemma sim_for_rules (rs' : list InferenceRule) (st st' : state) :
  rs' ⊆ rs → sim K fs fs' st st' →
  match for_rules rs' st, for_rules rs' st' with
  | Returned s, Returned s' => sim K fs fs' s s'
  | Raised e, Raised e' => e = e'
  | _, _ => False
  end.
Proof.
  revert st st'. induction rs' as [|r rs' IH]; simpl; intros st st' Hsub Hsim; [done|].
  pose proof (sim_rule_body r st st' Hsim (Hsub r ltac:(left))) as Hb.
  destruct (rule_body r st) as [s|e], (rule_body r st') as [s'|e']; simpl; try done.
  apply IH; [|done]. intros x Hx. apply Hsub. by right.
Qed.

Lemma sim_while_loop (fuel : nat) (st st' : state) (p : nat) :
  sim K fs fs' st st' →
  match while_loop fuel rs st p, while_loop fuel rs st' p with
  | None, None => True
  | Some (Returned s, n), Some (Returned s', n') => n = n' ∧ sim K fs fs' s s'
  | Some (Raised e, n), Some (Raised e', n') => e = e' ∧ n = n'
  | _, _ => False
  end.
Proof.
  revert st st' p. induction fuel as [|fuel IH]; simpl; intros st st' p Hsim;
    pose proof Hsim as (Ht & Hflag & Hoff & Hon); rewrite <- Hflag.
  - by destruct (new_fact_added st).
  - destruct (new_fact_added st); [|done]. unfold pass.
    assert (sim K fs fs'
      {| facts := facts st; triggered_rules := triggered_rules st;
         new_fact_added := false |}
      {| facts := facts st'; triggered_rules := triggered_rules st';
         new_fact_added := false |}) as Hreset by done.
    pose proof (sim_for_rules rs _ _ (reflexivity rs) Hreset) as Hp.
    set (a := for_rules rs {| facts := facts st |}) in *.
    set (b := for_rules rs {| facts := facts st' |}) in *.
    destruct a as [s|e], b as [s'|e']; try done. by apply IH.
Qed.
End simulation.

Lemma run_same_outcome (fuel : nat) (self : t) (K : list string)
    (fs fs' : gmap string value) :
  (∀ r, r ∈ rules self → (conclusion r).1 ∉ K) →
  (∀ k, k ∉ K → fs !! k = fs' !! k) →
  (∀ r (c : condition), r ∈ rules self → c ∈ conditions r → c.1.1 ∈ K →
     check_condition c fs = check_condition c fs') →
  same_outcome K (run fuel self fs) (run fuel self fs').
Proof.
  intros HK Hoff Hchecks. unfold run, same_outcome.
  pose proof (sim_while_loop (rules self) K fs fs' HK Hchecks fuel
    {| facts := fs; triggered_rules := []; new_fact_added := true |}
    {| facts := fs'; triggered_rules := []; new_fact_added := true |} 0) as Hsim.
  destruct (while_loop fuel _ _ _) as [[[s|e] n]|],
           (while_loop fuel _ _ _) as [[[s'|e'] n']|]; try (by apply Hsim).
  destruct Hsim as (-> & Ht & _ & Hoff' & _); [by split_and!|].
  by split_and!.
Qed.

(** X10: the engine sees a fact only through the conditions that test it: two
    initial fact stores that differ on keys that no rule concludes on, and
    on which every condition of the rule set evaluates alike, lead to the
    same firing record in the same number of passes (or to the same
    exception), and to final facts that differ on those keys only. *)
Theorem run_indistinguishable (fuel : nat) (self : t) (K : list string)
    (fs fs' : gmap string value) :
  (∀ r, r ∈ rules self → (conclusion r).1 ∉ K) →
  (∀ k, k ∉ K → fs !! k = fs' !! k) →
  (∀ r (c : condition), r ∈ rules self → c ∈ conditions r → c.1.1 ∈ K →
     check_condition c fs = check_condition c fs') →
  match run fuel self fs, run fuel self fs' with
  | None, None => True
  | Some (Returned (final, fired), n), Some (Returned (final', fired'), n') =>
      fired = fired' ∧ n = n' ∧ ∀ k, k ∉ K → final !! k = final' !! k
  | Some (Raised e, n), Some (Raised e', n') => e = e' ∧ n = n'
  | _, _ => False
  end.
Proof. apply run_same_outcome. Qed.

Lemma run_indistinguishable_witness :
  match run 3 (__init__ [rule_R1; rule_R2]) (<["z" := VInt 5]> {["a" := VInt 1]}),
        run 3 (__init__ [rule_R1; rule_R2]) (<["z" := VInt 7]> {["a" := VInt 1]}) with
  | None, None => True
  | Some (Returned (final, fired), n), Some (Returned (final', fired'), n') =>
      fired = fired' ∧ n = n' ∧ ∀ k, k ∉ ["z"] → final !! k = final' !! k
  | Some (Raised e, n), Some (Raised e', n') => e = e' ∧ n = n'
  | _, _ => False
  end.
Proof.
  apply (run_indistinguishable 3 (__init__ [rule_R1; rule_R2]) ["z"]
    (<["z" := VInt 5]> {["a" := VInt 1]}) (<["z" := VInt 7]> {["a" := VInt 1]})).
  - intros r Hr. vm_compute in Hr.
    apply elem_of_cons in Hr as [->|Hr];
      [|apply list_elem_of_singleton in Hr as ->];
      simpl; intros [=]%list_elem_of_singleton.
  - intros k Hk. rewrite !lookup_insert_ne; [done|..];
      intros <-; apply Hk; constructor.
  - intros r c Hr Hc HK. vm_compute in Hr.
    apply elem_of_cons in Hr as [->|Hr];
      [|apply list_elem_of_singleton in Hr as ->];
      apply list_elem_of_singleton in Hc as ->;
      apply list_elem_of_singleton in HK; discriminate.
Defined.

(** ** The diagnosis displayed by the application *)

Lemma RULES_sorted : rules (__init__ RULES) = RULES.
Proof. vm_compute. reflexivity. Qed.

Lemma app_facts_of (f : App.form) :
  App.facts f
  = facts_of (App.core_symptoms f) (App.symptom_count f) (App.risk_count f)
      (App.int_of_bool (App.strong_risk f)) (App.int_of_bool (App.duration f))
      (App.positive_lab_count f) (App.int_of_bool (App.repeat f))
      (App.int_of_bool (App.ruled_out_other f)) (App.int_of_bool (App.contra f)).
Proof. reflexivity. Qed.

(** The three counts matter only through the thresholds they are tested
    against. *)
Lemma facts_of_off (core count risk strong dur lab rep ruled ct count' risk' lab' : Z) (k : string) :
  k ∉ ["symptom_count"; "risk_count"; "positive_lab_count"] →
  facts_of core count risk strong dur lab rep ruled ct !! k
  = facts_of core count' risk' strong dur lab' rep ruled ct !! k.
Proof.
  intros Hk. unfold facts_of.
  rewrite !lookup_insert, !lookup_singleton.
  repeat (case_decide as Hd;
          [first [reflexivity | exfalso; apply Hk; rewrite <- Hd; set_solver]|clear Hd]).
  reflexivity.
Qed.

Lemma facts_of_checks (core count risk strong dur lab rep ruled ct : Z)
    (r : InferenceRule) (c : condition) :
  r ∈ RULES → c ∈ conditions r →
  c.1.1 ∈ ["symptom_count"; "risk_count"; "positive_lab_count"] →
  check_condition c (facts_of core count risk strong dur lab rep ruled ct)
  = check_condition c
      (facts_of core (if (3 <=? count)%Z then 3 else 0)
         (if (2 <=? risk)%Z then 2 else 0) strong dur
         (if (1 <=? lab)%Z then 1 else 0) rep ruled ct).
Proof.
  intros Hr Hc. revert c Hc.
  apply (proj1 (Forall_forall (λ c : condition,
    c.1.1 ∈ ["symptom_count"; "risk_count"; "positive_lab_count"] →
    check_condition c (facts_of core count risk strong dur lab rep ruled ct)
    = check_condition c
        (facts_of core (if (3 <=? count)%Z then 3 else 0)
           (if (2 <=? risk)%Z then 2 else 0) strong dur
           (if (1 <=? lab)%Z then 1 else 0) rep ruled ct)) (conditions r))).
  revert r Hr.
  apply (proj1 (Forall_forall (λ r, Forall _ (conditions r)) RULES)).
  unfold RULES, heart_disease_rules.
  repeat (apply Forall_cons; split); try apply Forall_nil_2; cbn [conditions];
    repeat (apply Forall_cons; split); try apply Forall_nil_2; cbn [fst snd];
    intros HK;
    try (exfalso; revert HK; apply (bool_decide_unpack _); vm_compute; exact I).
  - rewrite (check_condition_ge_int _ count),
      (check_condition_ge_int _ (if (3 <=? count)%Z then 3 else 0)%Z)
      by (vm_compute; reflexivity).
    by destruct (3 <=? count)%Z.
  - rewrite (check_condition_ge_int _ risk),
      (check_condition_ge_int _ (if (2 <=? risk)%Z then 2 else 0)%Z)
      by (vm_compute; reflexivity).
    by destruct (2 <=? risk)%Z.
  - rewrite (check_condition_ge_int _ lab),
      (check_condition_ge_int _ (if (1 <=? lab)%Z then 1 else 0)%Z)
      by (vm_compute; reflexivity).
    by destruct (1 <=? lab)%Z.
Qed.

Lemma facts_of_thresholds (core count risk strong dur lab rep ruled ct : Z) :
  same_outcome ["symptom_count"; "risk_count"; "positive_lab_count"]
    (run 12 (__init__ RULES)
       (facts_of core count risk strong dur lab rep ruled ct))
    (run 12 (__init__ RULES)
       (facts_of core (if (3 <=? count)%Z then 3 else 0)
          (if (2 <=? risk)%Z then 2 else 0) strong dur
          (if (1 <=? lab)%Z then 1 else 0) rep ruled ct)).
Proof.
  apply run_same_outcome; rewrite ?RULES_sorted.
  - apply Forall_forall. apply (bool_decide_unpack _). vm_compute. exact I.
  - intros k Hk. by apply facts_of_off.
  - intros r c. apply facts_of_checks.
Qed.

Lemma forall_bool_spec (P : bool → bool) (b : bool) :
  forall_bool P = true → P b = true.
Proof. unfold forall_bool. intros [H1 H2]%andb_true_iff. by destruct b. Qed.

(** All 512 combinations of the nine tests, by evaluation of the engine. *)
Lemma diagnosis_check_all (cb bs br sr d bp rp ro ct : bool) :
  diagnosis_check cb bs br sr d bp rp ro ct = true.
Proof.
  assert (forall_bool (λ cb, forall_bool (λ bs, forall_bool (λ br,
          forall_bool (λ sr, forall_bool (λ d, forall_bool (λ bp,
          forall_bool (λ rp, forall_bool (λ ro, forall_bool (λ ct,
            diagnosis_check cb bs br sr d bp rp ro ct))))))))) = true) as H
    by (vm_compute; reflexivity).
  apply (forall_bool_spec _ cb) in H. apply (forall_bool_spec _ bs) in H.
  apply (forall_bool_spec _ br) in H. apply (forall_bool_spec _ sr) in H.
  apply (forall_bool_spec _ d) in H. apply (forall_bool_spec _ bp) in H.
  apply (forall_bool_spec _ rp) in H. apply (forall_bool_spec _ ro) in H.
  apply (forall_bool_spec _ ct) in H. exact H.
Qed.

Lemma app_run (f : App.form) :
  ∃ final fired n,
    run 12 (__init__ RULES) (App.facts f) = Some (Returned (final, fired), n)
    ∧ default (VStr "No diagnosis could be made.") (final !! "final")
      = expected_diagnosis f
    ∧ ∀ r, r ∈ RULES → (priority r ≤ 4)%Z → identifier r ∉ fired.
Proof.
  rewrite app_facts_of.
  pose proof (facts_of_thresholds (App.core_symptoms f) (App.symptom_count f)
    (App.risk_count f) (App.int_of_bool (App.strong_risk f))
    (App.int_of_bool (App.duration f)) (App.positive_lab_count f)
    (App.int_of_bool (App.repeat f)) (App.int_of_bool (App.ruled_out_other f))
    (App.int_of_bool (App.contra f))) as Hsame.
  pose proof (diagnosis_check_all
    (bool_decide ("Chest pain" ∈ App.selected_symptoms f
                  ∧ "Shortness of breath" ∈ App.selected_symptoms f))
    (3 <=? App.symptom_count f)%Z (2 <=? App.risk_count f)%Z
    (App.strong_risk f) (App.duration f) (1 <=? App.positive_lab_count f)%Z
    (App.repeat f) (App.ruled_out_other f) (App.contra f)) as Hchk.
  unfold diagnosis_check in Hchk. unfold same_outcome, App.core_symptoms in Hsame.
  unfold expected_diagnosis, confirmed, App.core_symptoms.
  set (r0 := run 12 _ (facts_of _ (App.symptom_count f) _ _ _ _ _ _ _)) in *.
  set (r' := run 12 _ (facts_of _ (if (3 <=? App.symptom_count f)%Z then 3%Z else 0%Z)
                         _ _ _ _ _ _ _)) in *.
  destruct r' as [[[[final' fired']|e'] n']|]; [|discriminate Hchk..].
  destruct r0 as [[[[final fired]|e] n]|]; [|exfalso; exact Hsame..].
  simpl in Hsame. destruct Hsame as (-> & -> & Hoff).
  apply andb_true_iff in Hchk as [Htext Hfall].
  apply bool_decide_eq_true in Htext.
  exists final, fired', n'. split_and!; [done| |].
  - rewrite Hoff by (apply (bool_decide_unpack _); vm_compute; exact I).
    rewrite Htext.
    by destruct (bool_decide _).
  - intros r Hr Hp. rewrite forallb_forall in Hfall.
    specialize (Hfall r (proj1 (list_elem_of_In _ _) Hr)).
    apply orb_true_iff in Hfall as [Hlt%Z.ltb_lt|Hin%bool_decide_eq_true]; [lia|done].
Qed.

(** X11: for every form the engine returns on the facts of the form, and the
    text displayed is a confirmed diagnosis exactly when all the criteria
    of the five stages are met (the core pair of symptoms or three
    symptoms, two risk factors and a strong one, the duration, a positive
    lab result, a repeat and the other causes ruled out), with the therapy
    chosen by the contraindication; otherwise it is the default text
    saying that no diagnosis could be made. *)
Theorem app_diagnosis (fuel : nat) (f : App.form) :
  12 ≤ fuel →
  ∃ fired n,
    App.diagnosis fuel f = Some (Returned (expected_diagnosis f, fired), n).
Proof.
  intros Hfuel. destruct (app_run f) as (final & fired & n & Hrun & Htext & _).
  destruct (run_fuel _ _ _ _ _ Hrun) as [Hn Hmono].
  unfold App.diagnosis. rewrite (Hmono fuel) by lia. rewrite Htext. eauto.
Qed.

Lemma app_diagnosis_witness :
  ∃ fired n,
    App.diagnosis 12
      {| App.selected_symptoms := ["Chest pain"; "Nausea"]; App.risk_count := 3;
         App.strong_risk := true; App.duration := true;
         App.positive_lab_count := 2; App.repeat := true;
         App.ruled_out_other := true; App.contra := false |}
    = Some (Returned (VStr "No diagnosis could be made.", fired), n).
Proof.
  destruct (app_diagnosis 12
      {| App.selected_symptoms := ["Chest pain"; "Nausea"]; App.risk_count := 3;
         App.strong_risk := true; App.duration := true;
         App.positive_lab_count := 2; App.repeat := true;
         App.ruled_out_other := true; App.contra := false |}) as (fired & n & H).
  - lia.
  - exists fired, n. exact H.
Defined.

(** X12: on the facts of a form none of the fallback rules (the four rules of
    priority 4 or less, named Plan) ever fires: each of them tests a stage
    key with !=, a stage key is absent until a rule sets it to 1, and a
    test on an absent key is false. *)
Theorem app_fallback_never_fires (fuel : nat) (f : App.form)
    (final : gmap string value) (fired : list string) (n : nat)
    (r : InferenceRule) :
  run fuel (__init__ RULES) (App.facts f) = Some (Returned (final, fired), n) →
  r ∈ RULES → (priority r ≤ 4)%Z → identifier r ∉ fired.
Proof.
  intros Hrun. destruct (app_run f) as (final' & fired' & n' & Hrun' & _ & Hfall).
  destruct (run_fuel _ _ _ _ _ Hrun) as [_ Hm].
  destruct (run_fuel _ _ _ _ _ Hrun') as [_ Hm'].
  specialize (Hm (Nat.max n n') ltac:(lia)).
  specialize (Hm' (Nat.max n n') ltac:(lia)).
  rewrite Hm in Hm'. injection Hm' as _ <- _. exact (Hfall r).
Qed.

Lemma app_fallback_never_fires_witness :
  "Plan-Stage1: symptoms only" ∉ ["S1: core symptoms => suspect"].
Proof.
  apply (app_fallback_never_fires 12
    {| App.selected_symptoms := ["Chest pain"; "Shortness of breath"];
       App.risk_count := 0; App.strong_risk := false; App.duration := false;
       App.positive_lab_count := 0; App.repeat := false;
       App.ruled_out_other := false; App.contra := false |}
    (<["stage1" := VInt 1]>
       (App.facts
          {| App.selected_symptoms := ["Chest pain"; "Shortness of breath"];
             App.risk_count := 0; App.strong_risk := false; App.duration := false;
             App.positive_lab_count := 0; App.repeat := false;
             App.ruled_out_other := false; App.contra := false |}))
    ["S1: core symptoms => suspect"] 2
    {| identifier := "Plan-Stage1: symptoms only";
       conditions := [("stage1", "==", VInt 1); ("stage2", "!=", VInt 1)];
       conclusion := ("final", VStr "Symptoms suggest screening. Advise ECG and lifestyle evaluation.");
       priority := 2 |}).
  - apply (bool_decide_unpack _). vm_compute. exact I.
  - unfold RULES, heart_disease_rules.
    repeat first [apply list_elem_of_here | apply list_elem_of_further].
  - simpl. lia.
Defined.

(** ** Construction of the rule set, again *)

Lemma insert_by_priority_head (r : InferenceRule) (l : list InferenceRule) :
  Forall (λ x, (priority x ≤ priority r)%Z) l → insert_by_priority r l = r :: l.
Proof.
  destruct l as [|r' l]; simpl; [done|]. intros [Hr' _]%Forall_cons.
  destruct (Z.ltb_spec (priority r) (priority r')); [lia|done].
Qed.

Lemma sorted_by_priority_desc_fixed (rs : list InferenceRule) :
  StronglySorted (λ a b, (priority b ≤ priority a)%Z) rs →
  sorted_by_priority_desc rs = rs.
Proof.
  induction 1 as [|r rs Hs IH Hall]; simpl; [done|].
  rewrite IH. by apply insert_by_priority_head.
Qed.

(** X13: construction is idempotent: the rule list of an engine, given to the
    constructor again, comes out unchanged. *)
Theorem init_idempotent (rs : list InferenceRule) :
  __init__ (rules (__init__ rs)) = __init__ rs.
Proof.
  unfold __init__. simpl. f_equal.
  apply sorted_by_priority_desc_fixed, sorted_by_priority_desc_sorted.
Qed.

(** X14: when the priorities of the rules are pairwise different, the order in
    which the rules are given to the constructor does not matter: two
    lists with the same rules yield the same engine. *)
Theorem init_order_irrelevant (rs rs' : list InferenceRule) :
  NoDup (priority <$> rs) → rs ≡ₚ rs' → __init__ rs = __init__ rs'.
Proof.
  intros Hnd Hperm. unfold __init__. f_equal.
  apply (StronglySorted_unique_strong (λ a b, (priority b ≤ priority a)%Z));
    [|apply sorted_by_priority_desc_sorted..|].
  - intros x1 x2 Hx1 Hx2 H12 H21.
    rewrite sorted_by_priority_desc_Permutation in Hx1.
    rewrite sorted_by_priority_desc_Permutation, <- Hperm in Hx2.
    apply (fmap_NoDup_inj priority rs); [done..|lia].
  - by rewrite !sorted_by_priority_desc_Permutation.
Qed.

Lemma init_order_irrelevant_witness :
  __init__ [rule_Q2; rule_Q0; rule_Q1] = __init__ [rule_Q1; rule_Q2; rule_Q0].
Proof.
  apply init_order_irrelevant.
  - apply (bool_decide_unpack _). vm_compute. exact I.
  - change ([rule_Q2; rule_Q0] ++ [rule_Q1] ≡ₚ [rule_Q1] ++ [rule_Q2; rule_Q0]).
    apply Permutation_app_comm.
Defined.

(** ** Names of the rule nodes *)

(** X15: the rule nodes of the graph have pairwise different names, whatever
    the identifiers of the rules: the name is made from the index. *)
Theorem rule_name_inj (i j : nat) : rule_name i = rule_name j → i = j.
Proof.
  unfold rule_name, str_of_nat. intros [= H].
  change (NilEmpty.string_of_uint (Nat.to_uint i)
          = NilEmpty.string_of_uint (Nat.to_uint j)) in H.
  apply DecimalNat.Unsigned.to_uint_inj.
  pose proof (NilEmpty.usu (Nat.to_uint i)) as Hi.
  pose proof (NilEmpty.usu (Nat.to_uint j)) as Hj.
  rewrite H in Hi. congruence.
Qed.

Lemma rule_name_inj_witness : rule_name 7 = rule_name 7 ∧ 7 = 7.
Proof. split; [reflexivity|]. apply rule_name_inj. reflexivity. Defined.

(** ** Calling [run] again *)

(** X16: a second call of [run] on the same engine and the same dictionary is
    not affected by the first: it returns the same firing record after the
    same number of passes and a dictionary with the same final facts, in a
    new object, and the dictionary that the first call returned is still
    as it was. *)
Theorem run_twice (fuel : nat) (self : t) (h h1 : gmap nat Heap.object)
    (l l1 : nat) (fired : list string) (n : nat) :
  Heap.run fuel self h l = Some (h1, Returned (l1, fired), n) →
  ∃ h2 l2,
    Heap.run fuel self h1 l = Some (h2, Returned (l2, fired), n)
    ∧ l2 ≠ l1
    ∧ h2 !! l2 = h1 !! l1
    ∧ h2 !! l1 = h1 !! l1.
Proof.
  intros Hrun1.
  assert (∃ d, h !! l = Some (Heap.Dict d)) as [d Hd].
  { unfold Heap.run in Hrun1. destruct (h !! l) as [[d|rs]|]; [eauto|done..]. }
  pose proof (heap_run_spec fuel self h l d Hd) as H1. rewrite Hrun1 in H1.
  destruct (run fuel self d) as [[[[final fired'] |e] n']|] eqn:Hrun; try done.
  destruct H1 as (<- & <- & Hl1 & Hfinal & Hoff).
  assert (l ≠ l1) as Hne.
  { intros ->. pose proof (is_fresh (dom h)) as Hfresh. rewrite <- Hl1 in Hfresh.
    apply Hfresh, elem_of_dom. by rewrite Hd. }
  assert (h1 !! l = Some (Heap.Dict d)) as Hd1 by (by rewrite Hoff).
  pose proof (heap_run_spec fuel self h1 l d Hd1) as H2. rewrite Hrun in H2.
  destruct (Heap.run fuel self h1 l) as [[[h2 [[l2 fired2]|e2]] n2]|]; try done.
  destruct H2 as (-> & -> & Hl2 & Hfinal2 & Hoff2).
  assert (l2 ≠ l1) as Hne2.
  { intros ->. pose proof (is_fresh (dom h1)) as Hfresh. rewrite <- Hl2 in Hfresh.
    apply Hfresh, elem_of_dom. by rewrite Hfinal. }
  exists h2, l2. split_and!; [done..| |].
  - by rewrite Hfinal2, Hfinal.
  - by rewrite Hoff2.
Qed.

Lemma run_twice_witness :
  ∃ h2 l2,
    Heap.run 3 (__init__ [rule_R1; rule_R2])
      (<[1 := Heap.Dict (<["c" := VInt 1]> (<["b" := VInt 1]> {["a" := VInt 1]}))]>
         {[ 0 := Heap.Dict {["a" := VInt 1]} ]}) 0
    = Some (h2, Returned (l2, ["R1"; "R2"]), 2)
    ∧ l2 ≠ 1.
Proof.
  destruct (run_twice 3 (__init__ [rule_R1; rule_R2])
    {[ 0 := Heap.Dict {["a" := VInt 1]} ]}
    (<[1 := Heap.Dict (<["c" := VInt 1]> (<["b" := VInt 1]> {["a" := VInt 1]}))]>
       {[ 0 := Heap.Dict {["a" := VInt 1]} ]})
    0 1 ["R1"; "R2"] 2) as (h2 & l2 & Hrun & Hne & _).
  - vm_compute. reflexivity.
  - exists h2, l2. split; assumption.
Defined.

(** ** Fact nodes and the order of the rules *)

(** X17: the fact nodes of the graph, and their order, do not depend on the
    order of the rules: the keys are collected in a set and sorted. *)
Theorem fact_nodes_order_irrelevant (rules rules' : list InferenceRule) :
  rules ≡ₚ rules' →
  sorted_keys (collect_fact_keys rules) = sorted_keys (collect_fact_keys rules').
Proof.
  intros Hperm. f_equal. apply set_eq. intros k.
  rewrite !collect_fact_keys_spec. by setoid_rewrite Hperm.
Qed.

Lemma fact_nodes_order_irrelevant_witness :
  sorted_keys (collect_fact_keys [rule_R1; rule_R2])
  = sorted_keys (collect_fact_keys [rule_R2; rule_R1]).
Proof. apply fact_nodes_order_irrelevant. apply Permutation_swap. Defined.
